(** * Load Image from Dir (bm): the file selection, sorting and mask logic

    A shallow embedding of [nodes/load_image_from_dir_bm.py]: the class
    [LoadImageFromDirBM] with its methods [natural_sort_key], [sort_files]
    and [load_image], together with the library functions they call
    ([str.split], [str.strip], [str.lower], [str.endswith], [str.isdigit],
    [int], [re.split], [sorted], [os.path.basename], [os.path.join],
    [os.path.splitext], the float32 arithmetic of numpy and torch).

    Conventions.
    - A Python [str] is a [string]; its characters are the code points
      U+0000..U+00FF, the range an [ascii] holds.  The character classes
      below are the ones CPython's Unicode tables give on that range.
    - A Python [int] is a [Z].
    - A raised exception is the [Raise] branch of [result]; statements in
      sequence are chained with [x <- e ;; k].
    - The file system and the image decoder are read through the record
      [filesystem]; nothing is written, so one record is one snapshot.
    - Paths follow [posixpath].
    - [file_number] is any integer: the input schema asks for 0 or more,
      and [load_image] itself accepts what it is called with. *)

From Stdlib Require Import ZArith NArith QArith Qabs List String Ascii Bool Lia.
From Stdlib Require Import Permutation Sorted OrderedTypeEx.
From Stdlib Require Import Floats.SpecFloat.
Import ListNotations.

Local Open Scope string_scope.
Local Open Scope Z_scope.

Set Implicit Arguments.

(** ** Exceptions *)

Inductive exn : Type :=
| FileNotFoundError (msg : string)
| ValueError (msg : string)
| TypeError (msg : string)
| IndexError (msg : string)
| OSError (msg : string)
| UnidentifiedImageError (msg : string).

Inductive result (A : Type) : Type :=
| Ok (a : A)
| Raise (e : exn).

Arguments Ok {A} a.
Arguments Raise {A} e.

Definition bind {A B : Type} (r : result A) (k : A -> result B) : result B :=
  match r with
  | Ok a => k a
  | Raise e => Raise e
  end.

Notation "x <- e ;; k" := (bind e (fun x => k))
  (at level 61, e at next level, right associativity).

(** [[f(x) for x in l]], the elements evaluated from left to right. *)
Fixpoint mapM {A B : Type} (f : A -> result B) (l : list A) : result (list B) :=
  match l with
  | [] => Ok []
  | x :: l' => y <- f x ;; ys <- mapM f l' ;; Ok (y :: ys)
  end.

Definition is_ok {A : Type} (r : result A) : Prop := exists a, r = Ok a.

(** ** Python strings *)

Module Str.

Definition code (c : ascii) : N := N_of_ascii c.

Definition in_range (lo hi : N) (c : ascii) : bool :=
  ((lo <=? code c) && (code c <=? hi))%N.

(** [str.isspace] on one character: U+0009..U+000D, U+001C..U+0020,
    U+0085 and U+00A0. *)
Definition isspace (c : ascii) : bool :=
  in_range 9 13 c || in_range 28 32 c || (code c =? 133)%N || (code c =? 160)%N.

(** What [\d] matches in a [str] pattern: category Nd, here 0-9. *)
Definition isdecimal (c : ascii) : bool := in_range 48 57 c.

(** [str.isdigit] on one character: the decimal digits and the
    superscripts U+00B2, U+00B3, U+00B9. *)
Definition isdigit_char (c : ascii) : bool :=
  isdecimal c || (code c =? 178)%N || (code c =? 179)%N || (code c =? 185)%N.

(** [str.lower] on one character: A-Z and U+00C0..U+00DE but U+00D7. *)
Definition lower_char (c : ascii) : ascii :=
  if in_range 65 90 c || (in_range 192 222 c && negb (code c =? 215)%N)
  then ascii_of_N (code c + 32)
  else c.

Fixpoint forallb (p : ascii -> bool) (s : string) : bool :=
  match s with
  | EmptyString => true
  | String c s' => p c && forallb p s'
  end.

Fixpoint lower (s : string) : string :=
  match s with
  | EmptyString => EmptyString
  | String c s' => String (lower_char c) (lower s')
  end.

Definition is_empty (s : string) : bool :=
  match s with EmptyString => true | String _ _ => false end.

(** [s.isdigit()]: non-empty and every character a digit. *)
Definition isdigit (s : string) : bool :=
  negb (is_empty s) && forallb isdigit_char s.

Fixpoint lstrip (s : string) : string :=
  match s with
  | EmptyString => EmptyString
  | String c s' => if isspace c then lstrip s' else s
  end.

Fixpoint rstrip (s : string) : string :=
  match s with
  | EmptyString => EmptyString
  | String c s' =>
      let r := rstrip s' in
      if is_empty r && isspace c then EmptyString else String c r
  end.

(** [s.strip()] *)
Definition strip (s : string) : string := rstrip (lstrip s).

(** [s.split(sep)] for a one-character separator. *)
Fixpoint split (sep : ascii) (s : string) : list string :=
  match s with
  | EmptyString => [EmptyString]
  | String c s' =>
      if Ascii.eqb c sep then EmptyString :: split sep s'
      else match split sep s' with
           | piece :: rest => String c piece :: rest
           | [] => [String c EmptyString]
           end
  end.

(** [s.endswith(suffix)] *)
Fixpoint endswith (s suffix : string) : bool :=
  String.eqb s suffix ||
  match s with
  | EmptyString => false
  | String _ s' => endswith s' suffix
  end.

(** [s.endswith(suffixes)] for a tuple of suffixes. *)
Definition endswith_any (s : string) (suffixes : list string) : bool :=
  existsb (endswith s) suffixes.

(** The value of a run of decimal digits, most significant first. *)
Fixpoint digits_value (acc : Z) (s : string) : Z :=
  match s with
  | EmptyString => acc
  | String c s' => digits_value (10 * acc + (Z.of_N (code c) - 48)) s'
  end.

(** The default of [sys.get_int_max_str_digits()]: the number of digit
    characters, leading zeros included, that [int] takes in base 10. *)
Definition int_max_str_digits : Z := 4300.

(** [int(s)] for the strings [natural_sort_key] passes to it, those with
    [s.isdigit()]: the number when every character is a decimal digit
    and there are at most [int_max_str_digits] of them, [ValueError]
    otherwise ([int] accepts no superscript digit, and no digit string
    beyond the limit).  The messages are cut short. *)
Definition int (s : string) : result Z :=
  if negb (is_empty s) && forallb isdecimal s then
    if int_max_str_digits <? Z.of_nat (String.length s)
    then Raise (ValueError "Exceeds the limit (4300 digits) for integer string conversion")
    else Ok (digits_value 0 s)
  else Raise (ValueError "invalid literal for int() with base 10").

(** [s < t] and [s == t] on [str]: code point order. *)
Definition ltb (s t : string) : bool := String.ltb s t.

End Str.

(** ** posixpath *)

Module Path.

(** [s.rfind(c)]: the highest index of [c] in [s], or -1. *)
Fixpoint rfind (c : ascii) (s : string) : Z :=
  match s with
  | EmptyString => -1
  | String a s' =>
      let i := rfind c s' in
      if 0 <=? i then i + 1 else if Ascii.eqb a c then 0 else -1
  end.

(** [s[:n]] and [s[n:]] for [0 <= n]. *)
Fixpoint take (n : nat) (s : string) : string :=
  match n, s with
  | S n', String c s' => String c (take n' s')
  | _, _ => EmptyString
  end.

Fixpoint drop (n : nat) (s : string) : string :=
  match n, s with
  | S n', String _ s' => drop n' s'
  | _, _ => s
  end.

(** [i = p.rfind('/') + 1; return p[i:]] *)
Definition basename (p : string) : string :=
  let i := rfind "/" p + 1 in
  drop (Z.to_nat i) p.

Definition startswith_sep (b : string) : bool :=
  match b with
  | String c _ => Ascii.eqb c "/"
  | EmptyString => false
  end.

(** [os.path.join(a, b)] with one component [b]. *)
Definition join (a b : string) : string :=
  if startswith_sep b then b
  else if Str.is_empty a || Str.endswith a "/" then a ++ b
  else a ++ "/" ++ b.

Definition is_dot (c : ascii) : bool := Ascii.eqb c ".".

(** [os.path.splitext(p)]: the extension starts at the last dot of the
    last component, unless only dots stand before it in that component. *)
Definition splitext (p : string) : string * string :=
  let sepIndex := rfind "/" p in
  let dotIndex := rfind "." p in
  if sepIndex <? dotIndex then
    let filenameIndex := sepIndex + 1 in
    let leading :=
      take (Z.to_nat (dotIndex - filenameIndex)) (drop (Z.to_nat filenameIndex) p) in
    if Str.forallb is_dot leading then (p, EmptyString)
    else (take (Z.to_nat dotIndex) p, drop (Z.to_nat dotIndex) p)
  else (p, EmptyString).

End Path.

(** ** re.split(r'(\d+)', name) *)

Module Re.

(** The pieces of [name] around its maximal runs of decimal digits, the
    runs included: [[t0; d1; t1; ...; dn; tn]], where [t0] and [tn] may be
    empty.  Read from the right: a digit joins the run that starts the
    rest of the string, or opens a new run in front of it. *)
Fixpoint split_digits (name : string) : list string :=
  match name with
  | EmptyString => [EmptyString]
  | String c rest =>
      let pieces := split_digits rest in
      if Str.isdecimal c then
        match pieces with
        | EmptyString :: d :: more => EmptyString :: String c d :: more
        | _ => EmptyString :: String c EmptyString :: pieces
        end
      else
        match pieces with
        | t :: more => String c t :: more
        | [] => [String c EmptyString]
        end
  end.

End Re.

(** ** Sort keys and their comparison *)

(** An element of the list [natural_sort_key] returns: an [int] or a [str]. *)
Inductive key_part : Type :=
| KInt (n : Z)
| KStr (s : string).

(** [x == y]: an [int] and a [str] are never equal, and no error. *)
Definition part_eq (x y : key_part) : bool :=
  match x, y with
  | KInt m, KInt n => m =? n
  | KStr s, KStr t => String.eqb s t
  | _, _ => false
  end.

(** [x < y]: not supported between [int] and [str]. *)
Definition part_lt (x y : key_part) : result bool :=
  match x, y with
  | KInt m, KInt n => Ok (m <? n)
  | KStr s, KStr t => Ok (Str.ltb s t)
  | _, _ => Raise (TypeError "'<' not supported between instances")
  end.

(** [a < b] on lists: the first pair of unequal elements decides, and the
    shorter list is the smaller when one is a prefix of the other. *)
Fixpoint list_lt (a b : list key_part) : result bool :=
  match a, b with
  | x :: a', y :: b' => if part_eq x y then list_lt a' b' else part_lt x y
  | [], _ :: _ => Ok true
  | _, [] => Ok false
  end.

(** [a < b] on numbers. *)
Definition num_lt (a b : Z) : result bool := Ok (a <? b).

(** ** sorted(files, key=..., reverse=...) *)

Section PySorted.

Variables A K : Type.
Variable lt : K -> K -> result bool.

(** [x] goes in front of the first element that is not smaller than it. *)
Fixpoint insert (x : K * A) (l : list (K * A)) : result (list (K * A)) :=
  match l with
  | [] => Ok [x]
  | y :: l' =>
      b <- lt (fst y) (fst x) ;;
      if b then r <- insert x l' ;; Ok (y :: r) else Ok (x :: l)
  end.

Fixpoint isort (l : list (K * A)) : result (list (K * A)) :=
  match l with
  | [] => Ok []
  | x :: l' => r <- isort l' ;; insert x r
  end.

(** [(key(x), x)], or the exception [key(x)] raises. *)
Definition decorate (key : A -> result K) (x : A) : result (K * A) :=
  k <- key x ;; Ok (k, x).

(** The keys are computed first, one call per element from left to right;
    the elements are put in ascending order of their keys with [<] alone,
    equal keys staying in their order; with [reverse] the list is reversed
    before the sort and again after it.  CPython merges runs where this
    model inserts, and so calls [<] on other pairs; both sorts are stable,
    and they return one list wherever [<] always answers and is a strict
    total order on the keys, which is shown below for every key that
    [sort_files] computes. *)
Definition sorted (key : A -> result K) (reverse : bool) (l : list A)
  : result (list A) :=
  decorated <- mapM (decorate key) l ;;
  let decorated := if reverse then rev decorated else decorated in
  r <- isort decorated ;;
  let r := if reverse then rev r else r in
  Ok (map snd r).

End PySorted.

(** ** Arrays and float32 *)

(** A numpy array or a torch tensor: its shape and its elements in
    row-major order. *)
Record array (T : Type) : Type := MkArray {
  shape : list nat;
  data : list T
}.

(** IEEE 754 binary32: 24 bits of precision, exponents below 128. *)
Definition float32 : Type := spec_float.

Module F32.

Definition prec : Z := 24.
Definition emax : Z := 128.

(** The float32 nearest to an integer. *)
Definition of_Z (n : Z) : float32 := binary_normalize prec emax n 0 false.

Definition div (x y : float32) : float32 := SFdiv prec emax x y.
Definition sub (x y : float32) : float32 := SFsub prec emax x y.
Definition eqb (x y : float32) : bool := SFeqb x y.

Definition zero : float32 := S754_zero false.
Definition one : float32 := of_Z 1.
Definition half : float32 := div one (of_Z 2).

End F32.

(** [torch.zeros(shape, dtype=torch.float32)] *)
Definition zeros (sh : list nat) : array float32 :=
  MkArray sh (repeat F32.zero (fold_right Nat.mul 1%nat sh)).

(** [a.astype(np.float32)] on an array of bytes. *)
Definition astype_float32 (a : array N) : array float32 :=
  MkArray (shape a) (map (fun b => F32.of_Z (Z.of_N b)) (data a)).

(** [a / c] for a float32 array and a Python float that float32 holds. *)
Definition array_div (a : array float32) (c : float32) : array float32 :=
  MkArray (shape a) (map (fun x => F32.div x c) (data a)).

(** [c - t] *)
Definition rsub (c : float32) (t : array float32) : array float32 :=
  MkArray (shape t) (map (fun x => F32.sub c x) (data t)).

(** [torch.from_numpy(a)] *)
Definition from_numpy (a : array float32) : array float32 := a.

(** [t.unsqueeze(0)] *)
Definition unsqueeze0 {T : Type} (t : array T) : array T :=
  MkArray (1%nat :: shape t) (data t).

(** ** Decoded images *)

(** A PIL image once loaded: its size, its bands (name and samples, row
    by row, one byte each) and the samples of its conversion to RGB (rows
    of pixels, three bytes each). *)
Record pil_image : Type := MkImage {
  width : nat;
  height : nat;
  bands : list (string * list N);
  rgb : list N
}.

Definition getbands (im : pil_image) : list string := map fst (bands im).

(** [im.getchannel(name)] *)
Fixpoint lookup_band (name : string) (bs : list (string * list N))
  : result (list N) :=
  match bs with
  | [] => Raise (ValueError "The image has no channel")
  | (n, plane) :: bs' =>
      if String.eqb n name then Ok plane else lookup_band name bs'
  end.

Definition getchannel (im : pil_image) (name : string) : result (list N) :=
  lookup_band name (bands im).

(** [np.array(channel)] for one band: height by width. *)
Definition np_array_band (im : pil_image) (plane : list N) : array N :=
  MkArray [height im; width im] plane.

(** [np.array(im.convert("RGB"))]: height by width by 3. *)
Definition np_array_rgb (im : pil_image) : array N :=
  MkArray [height im; width im; 3%nat] (rgb im).

(** ** The file system and the decoder *)

(** [isdir] is [os.path.isdir] (never raises); [listdir], [getmtime] and
    [getsize] are the functions of [os] and [os.path] with these names,
    and raise [OSError] or a subclass of it; [image_open] is
    [ImageOps.exif_transpose(Image.open(path))] with the pixel data
    loaded, and raises when the file cannot be read or decoded.
    A modification time, a finite double, is given by the integer [n]
    for which it is [n * 2^-1074]; the doubles compare as these integers. *)
Record filesystem : Type := MkFs {
  isdir : string -> bool;
  listdir : string -> result (list string);
  getmtime : string -> result Z;
  getsize : string -> result Z;
  image_open : string -> result pil_image
}.

(** [l[i]], negative indices counting from the end. *)
Definition getitem {A : Type} (l : list A) (i : Z) : result A :=
  let n := Z.of_nat (List.length l) in
  let j := if i <? 0 then i + n else i in
  if (0 <=? j) && (j <? n) then
    match nth_error l (Z.to_nat j) with
    | Some x => Ok x
    | None => Raise (IndexError "list index out of range")
    end
  else Raise (IndexError "list index out of range").

(** ** class LoadImageFromDirBM *)

(** RETURN_NAMES *)
Record outputs : Type := MkOutputs {
  image : array float32;
  mask : array float32;
  filepath : string;
  filename : string;
  filename_no_ext : string;
  file_count : Z
}.

Definition valid_extensions : list string :=
  [".png"; ".jpg"; ".jpeg"; ".webp"; ".bmp"; ".tiff"].

Definition no_files_message : string :=
  "No valid image files found in the given directory/directories.".

Definition key_of_text (text : string) : result key_part :=
  if Str.isdigit text then n <- Str.int text ;; Ok (KInt n)
  else Ok (KStr (Str.lower text)).

Definition natural_sort_key (s : string) : result (list key_part) :=
  let name := Path.basename s in
  mapM key_of_text (Re.split_digits name).

(** [max(0, min(file_number, file_count - 1))] *)
Definition clamp_index (file_number file_count : Z) : Z :=
  Z.max 0 (Z.min file_number (file_count - 1)).

Section LoadImageFromDirBM.

Variable fs : filesystem.

Definition sort_files (files : list string) (sort_method : string)
  : result (list string) :=
  if String.eqb sort_method "Filename" then
    sorted list_lt natural_sort_key false files
  else if String.eqb sort_method "Date (Newest First)" then
    sorted num_lt (getmtime fs) true files
  else if String.eqb sort_method "Date (Oldest First)" then
    sorted num_lt (getmtime fs) false files
  else if String.eqb sort_method "FileSize" then
    sorted num_lt (getsize fs) false files
  else Ok files.

(** Line 89: the entries of [directory] that name a directory. *)
Definition parse_directories (directory : string) : list string :=
  map Str.strip
    (filter (fun p => isdir fs (Str.strip p)) (Str.split ";" directory)).

(** Lines 94 to 96: the inner loop over one listing. *)
Fixpoint scan_names (dir_path : string) (names image_files : list string)
  : list string :=
  match names with
  | [] => image_files
  | filename :: names' =>
      scan_names dir_path names'
        (if Str.endswith_any (Str.lower filename) valid_extensions
         then (image_files ++ [Path.join dir_path filename])%list
         else image_files)
  end.

(** Lines 93 to 96: the outer loop over the directories. *)
Fixpoint scan_directories (directories image_files : list string)
  : result (list string) :=
  match directories with
  | [] => Ok image_files
  | dir_path :: directories' =>
      names <- listdir fs dir_path ;;
      scan_directories directories' (scan_names dir_path names image_files)
  end.

(** Lines 89 to 96: the candidates in discovery order. *)
Definition collect (directory : string) : result (list string) :=
  scan_directories (parse_directories directory) [].

(** Lines 112 to 118. *)
Definition make_mask (im : pil_image) : result (array float32) :=
  let has_alpha := existsb (String.eqb "A") (getbands im) in
  let mask := zeros [64%nat; 64%nat] in
  if has_alpha then
    alpha_channel <- getchannel im "A" ;;
    let alpha_np :=
      array_div (astype_float32 (np_array_band im alpha_channel))
        (F32.of_Z 255) in
    Ok (rsub F32.one (from_numpy alpha_np))
  else Ok mask.

Definition load_image (directory : string) (file_number : Z)
  (sort_by : string) : result outputs :=
  image_files <- collect directory ;;
  image_files <- sort_files image_files sort_by ;;
  let file_count := Z.of_nat (List.length image_files) in
  if file_count =? 0 then Raise (FileNotFoundError no_files_message)
  else
    let index := clamp_index file_number file_count in
    image_path <- getitem image_files index ;;
    let filename := Path.basename image_path in
    let filename_no_ext := fst (Path.splitext filename) in
    im <- image_open fs image_path ;;
    mask <- make_mask im ;;
    let np_image := array_div (astype_float32 (np_array_rgb im)) (F32.of_Z 255) in
    let tensor_image := unsqueeze0 (from_numpy np_image) in
    Ok (MkOutputs tensor_image (unsqueeze0 mask) image_path filename
          filename_no_ext file_count).

End LoadImageFromDirBM.

(** The four entries of the [sort_by] choice. *)
Inductive sort_mode : Type :=
| Filename
| NewestFirst
| OldestFirst
| FileSize.

Definition mode_name (m : sort_mode) : string :=
  match m with
  | Filename => "Filename"
  | NewestFirst => "Date (Newest First)"
  | OldestFirst => "Date (Oldest First)"
  | FileSize => "FileSize"
  end.

(** * Notions used to state the properties *)

(** ** The order of the keys *)

(** [x < y] decided for every pair of parts, an [int] before a [str];
    it is [part_lt] wherever [part_lt] answers. *)
Definition part_ltb (x y : key_part) : bool :=
  match x, y with
  | KInt m, KInt n => m <? n
  | KStr s, KStr t => Str.ltb s t
  | KInt _, KStr _ => true
  | KStr _, KInt _ => false
  end.

Fixpoint key_ltb (a b : list key_part) : bool :=
  match a, b with
  | x :: a', y :: b' => if part_eq x y then key_ltb a' b' else part_ltb x y
  | [], _ :: _ => true
  | _, [] => false
  end.

Definition is_str (x : key_part) : Prop :=
  match x with KStr _ => True | KInt _ => False end.

Definition is_int (x : key_part) : Prop :=
  match x with KInt _ => True | KStr _ => False end.

(** A [str] at every even position and an [int] at every odd one. *)
Fixpoint alternating (text_next : bool) (k : list key_part) : Prop :=
  match k with
  | [] => True
  | x :: k' =>
      (if text_next then is_str x else is_int x)
      /\ alternating (negb text_next) k'
  end.

(** ** Insertion sort with a comparison that always answers *)

Section PureSort.

Variables A K : Type.
Variable ltb : K -> K -> bool.

Fixpoint insert_p (x : K * A) (l : list (K * A)) : list (K * A) :=
  match l with
  | [] => [x]
  | y :: l' => if ltb (fst y) (fst x) then y :: insert_p x l' else x :: l
  end.

Fixpoint isort_p (l : list (K * A)) : list (K * A) :=
  match l with
  | [] => []
  | x :: l' => insert_p x (isort_p l')
  end.

(** Neither key is smaller than the other. *)
Definition tie (a b : K) : bool := negb (ltb a b) && negb (ltb b a).

(** [a <= b], as the sort sees it: not [b < a]. *)
Definition leb (a b : K) : bool := negb (ltb b a).

Definition le_pair (x y : K * A) : Prop := ltb (fst y) (fst x) = false.
Definition ge_pair (x y : K * A) : Prop := ltb (fst x) (fst y) = false.

(** What [sorted] does to the decorated list when [<] always answers. *)
Definition arrange (reverse : bool) (dl : list (K * A)) : list (K * A) :=
  let dl := if reverse then rev dl else dl in
  let r := isort_p dl in
  if reverse then rev r else r.

Variable key : A -> result K.

(** The test "the key of [y] ties with [k]". *)
Definition has_key (k : K) (y : A) : bool :=
  match key y with
  | Ok b => tie k b
  | Raise _ => false
  end.

(** The keys of [x] and [y] are computed and tie. *)
Definition same (x y : A) : bool :=
  match key x with
  | Ok a => has_key a y
  | Raise _ => false
  end.

(** [x] may stand before [y] in the result. *)
Definition key_rel (reverse : bool) (x y : A) : Prop :=
  exists a b, key x = Ok a /\ key y = Ok b /\
    (if reverse then ltb a b else ltb b a) = false.

Variable good : K -> Prop.

Definition good_pair (p : K * A) : Prop := good (fst p).

End PureSort.

(** What the proofs about [sorted] ask of a comparison [lt] and a key:
    on the keys the key function returns, the ones that are [good], [lt]
    answers and is the strict total order [ltb]. *)
Record key_order {A K : Type} (lt : K -> K -> result bool)
  (ltb : K -> K -> bool) (key : A -> result K) (good : K -> Prop) : Prop :=
  MkKeyOrder {
    ko_lt_good : forall a b, good a -> good b -> lt a b = Ok (ltb a b);
    ko_key_good : forall x k, key x = Ok k -> good k;
    ko_irrefl : forall a, ltb a a = false;
    ko_trans : forall a b c, ltb a b = true -> ltb b c = true -> ltb a c = true;
    ko_total : forall a b, ltb a b = false -> ltb b a = false -> a = b
  }.

(** [x] stands somewhere before [y] in [l]. *)
Definition before {A : Type} (x y : A) (l : list A) : Prop :=
  exists l1 l2 l3, l = (l1 ++ x :: l2 ++ y :: l3)%list.

(** ** Keys of candidates under a sort mode *)

(** The key [sort_files] computes for a path, a list of parts or a number
    injected in one type. *)
Inductive sort_key : Type :=
| NameKey (k : list key_part)
| NumKey (n : Z).

Definition mode_key (fs : filesystem) (m : sort_mode) (path : string)
  : result sort_key :=
  match m with
  | Filename => k <- natural_sort_key path ;; Ok (NameKey k)
  | NewestFirst | OldestFirst => n <- getmtime fs path ;; Ok (NumKey n)
  | FileSize => n <- getsize fs path ;; Ok (NumKey n)
  end.

Definition sort_key_ltb (a b : sort_key) : bool :=
  match a, b with
  | NameKey k1, NameKey k2 => key_ltb k1 k2
  | NumKey m, NumKey n => m <? n
  | NumKey _, NameKey _ => true
  | NameKey _, NumKey _ => false
  end.

(** The keys of [x] and [y] are computed and compare equal. *)
Definition same_key (fs : filesystem) (m : sort_mode) (x y : string) : bool :=
  match mode_key fs m x, mode_key fs m y with
  | Ok a, Ok b => tie sort_key_ltb a b
  | _, _ => false
  end.

(** [x] is not after [y] in the order of the mode: ascending keys, or
    descending ones for the newest first. *)
Definition in_order (fs : filesystem) (m : sort_mode) (x y : string) : Prop :=
  exists a b, mode_key fs m x = Ok a /\ mode_key fs m y = Ok b /\
    match m with
    | NewestFirst => sort_key_ltb a b = false
    | _ => sort_key_ltb b a = false
    end.

(** ** The shape of a split at digit runs *)

Definition no_decimal (t : string) : Prop :=
  Str.forallb (fun c => negb (Str.isdecimal c)) t = true.

Definition decimal_run (d : string) : Prop :=
  d <> EmptyString /\ Str.forallb Str.isdecimal d = true.

(** [s] has no more characters than [int] takes digits. *)
Definition within_limit (s : string) : Prop :=
  Z.of_nat (String.length s) <= Str.int_max_str_digits.

(** [[t0; d1; t1; ...; dn; tn]]: the [t] hold no decimal digit, the [d]
    are non-empty runs of decimal digits, and only [t0] and [tn] may be
    empty, so the [d] are maximal. *)
Inductive digit_runs : list string -> Prop :=
| runs_last (t : string) : no_decimal t -> digit_runs [t]
| runs_more (t d : string) (rest : list string) :
    no_decimal t -> decimal_run d -> digit_runs rest ->
    match rest with
    | t1 :: _ :: _ => t1 <> EmptyString
    | _ => True
    end ->
    digit_runs (t :: d :: rest).

(** The key the words of the specification give to a split name: the
    text runs, at the even positions, lower-cased, and the digit runs, at
    the odd positions, as integers. *)
Fixpoint key_of_runs (text_next : bool) (pieces : list string) : list key_part :=
  match pieces with
  | [] => []
  | p :: ps =>
      (if text_next then KStr (Str.lower p) else KInt (Str.digits_value 0 p))
      :: key_of_runs (negb text_next) ps
  end.

Definition natural_key (path : string) : list key_part :=
  key_of_runs true (Re.split_digits (Path.basename path)).

(** [x] is not after [y] in natural order. *)
Definition natural_le (x y : string) : Prop :=
  key_ltb (natural_key y) (natural_key x) = false.

(** ** The mask of one alpha byte *)

(** [1.0 - a / 255.0], computed in float32. *)
Definition mask_value (a : N) : float32 :=
  F32.sub F32.one (F32.div (F32.of_Z (Z.of_N a)) (F32.of_Z 255)).

(** The rational a float32 stands for; none for infinities and NaN. *)
Definition f32_value (x : float32) : option Q :=
  match x with
  | S754_zero _ => Some 0%Q
  | S754_finite s m e =>
      Some ((if s then - inject_Z (Z.pos m) else inject_Z (Z.pos m))
            * Qpower 2 e)%Q
  | S754_infinity _ | S754_nan => None
  end.

(** [1 - a/255], exactly. *)
Definition exact_mask (a : N) : Q := (1 - (Z.of_N a # 255))%Q.

(** The mask value of the byte [a] lies in [0, 1] and within [2^-24] of
    [1 - a/255]. *)
Definition mask_close (a : N) : bool :=
  match f32_value (mask_value a) with
  | Some q =>
      Qle_bool (Qabs (q - exact_mask a)) (1 # 16777216)
      && Qle_bool 0 q && Qle_bool q 1
  | None => false
  end.

Definition all_bytes : list N := map N.of_nat (seq 0 256).

(** ** The modes as calls of [sorted] *)

Definition mode_reverse (m : sort_mode) : bool :=
  match m with NewestFirst => true | _ => false end.

(** One mode of [sort_files] seen as one call of [sorted]. *)
Record mode_view (fs : filesystem) (m : sort_mode) (K : Type)
  (lt : K -> K -> result bool) (ltb : K -> K -> bool)
  (key : string -> result K) (good : K -> Prop) (inj : K -> sort_key) : Prop :=
  MkModeView {
    mv_order : key_order lt ltb key good;
    mv_sort : forall files,
      sort_files fs files (mode_name m) = sorted lt key (mode_reverse m) files;
    mv_key : forall x, mode_key fs m x = (k <- key x ;; Ok (inj k));
    mv_ltb : forall a b, sort_key_ltb (inj a) (inj b) = ltb a b
  }.

(** ** The image tensor *)

(** The image tensor of a decoded image. *)
Definition image_tensor (im : pil_image) : array float32 :=
  unsqueeze0
    (from_numpy (array_div (astype_float32 (np_array_rgb im)) (F32.of_Z 255))).

(** ** Names and their parts *)

(** [c] does not occur in [s]; [s] is made of [c] alone. *)
Definition no_char (c : ascii) (s : string) : Prop :=
  Str.forallb (fun a => negb (Ascii.eqb a c)) s = true.

Definition all_char (c : ascii) (s : string) : Prop :=
  Str.forallb (Ascii.eqb c) s = true.

(** [name] is the last component of [path]: what follows the last
    slash, or all of [path] when it has none. *)
Definition last_component (path name : string) : Prop :=
  exists pre, path = (pre ++ name)%string /\ no_char "/" name
    /\ (pre = EmptyString \/ Str.endswith pre "/" = true).

(** The words of the specification, not the code: [name] with its final
    extension removed, the final extension being the last dot of [name]
    and what follows it, as in the extension test on the candidates.  A
    name without a dot is left as it is. *)
Definition final_extension_removed (name : string) : string :=
  let dotIndex := Path.rfind "." name in
  if dotIndex <? 0 then name else Path.take (Z.to_nat dotIndex) name.

(** ** The candidates of a directory *)

(** The test of line 95 on one entry of a listing. *)
Definition supported (filename : string) : bool :=
  Str.endswith_any (Str.lower filename) valid_extensions.

(** The matching entries of one listing, joined to the directory. *)
Definition entries (dir_path : string) (names : list string) : list string :=
  map (Path.join dir_path) (filter supported names).

(** ** Trimmed entries *)

Definition all_space (s : string) : Prop := Str.forallb Str.isspace s = true.

Definition first_not_space (s : string) : Prop :=
  match s with
  | String c _ => Str.isspace c = false
  | EmptyString => True
  end.

Fixpoint last_not_space (s : string) : Prop :=
  match s with
  | EmptyString => True
  | String c EmptyString => Str.isspace c = false
  | String _ s' => last_not_space s'
  end.

(** [q] is [p] without the whitespace around it. *)
Definition stripped (p q : string) : Prop :=
  exists l r, p = (l ++ q ++ r)%string /\ all_space l /\ all_space r
    /\ first_not_space q /\ last_not_space q.

(** ** Names without superscript digits *)

(** The three characters [isdigit] accepts and [\d] does not. *)
Definition superscript (c : ascii) : bool :=
  ((Str.code c =? 178) || (Str.code c =? 179) || (Str.code c =? 185))%N.

Definition no_superscript (s : string) : Prop :=
  Str.forallb (fun c => negb (superscript c)) s = true.

(** * Concrete snapshots *)

(** The same snapshot with the listings replaced. *)
Definition with_listdir (fs : filesystem)
  (ld : string -> result (list string)) : filesystem :=
  MkFs (isdir fs) ld (getmtime fs) (getsize fs) (image_open fs).

(** A 3 by 1 image with an alpha band and a 2 by 1 image without. *)
Definition im_alpha : pil_image :=
  MkImage 3 1
    [("R", [10; 20; 30]%N); ("G", [10; 20; 30]%N); ("B", [10; 20; 30]%N);
     ("A", [0; 128; 255]%N)]
    [10; 10; 10; 20; 20; 20; 30; 30; 30]%N.

Definition im_plain : pil_image :=
  MkImage 2 1
    [("R", [1; 2]%N); ("G", [3; 4]%N); ("B", [5; 6]%N)]
    [1; 3; 5; 2; 4; 6]%N.

(** Directory [A] holds a.png, notes.txt and c.JPG, directory [B] holds
    b.jpg; nothing else is a directory. *)
Definition fs_demo : filesystem :=
  MkFs
    (fun p => String.eqb p "A" || String.eqb p "B")
    (fun p =>
       if String.eqb p "A" then Ok ["a.png"; "notes.txt"; "c.JPG"]
       else if String.eqb p "B" then Ok ["b.jpg"]
       else Raise (OSError "No such file or directory"))
    (fun p =>
       if String.eqb p "A/a.png" then Ok 300
       else if String.eqb p "A/c.JPG" then Ok 100
       else Ok 200)
    (fun p => if String.eqb p "B/b.jpg" then Ok 7 else Ok 5)
    (fun p => if String.eqb p "A/a.png" then Ok im_alpha else Ok im_plain).

Definition demo_names (d : string) : list string :=
  if String.eqb d "A" then ["a.png"; "notes.txt"; "c.JPG"] else ["b.jpg"].

(** The snapshot [fs_demo] where no file decodes. *)
Definition fs_undecodable : filesystem :=
  MkFs (isdir fs_demo) (listdir fs_demo) (getmtime fs_demo) (getsize fs_demo)
    (fun _ => Raise (UnidentifiedImageError "cannot identify image file")).

(** The snapshot [fs_demo] with the entries of [A] listed backwards. *)
Definition fs_demo_backwards : filesystem :=
  with_listdir fs_demo
    (fun p =>
       if String.eqb p "A" then Ok ["c.JPG"; "notes.txt"; "a.png"]
       else listdir fs_demo p).

(** Directory [A] holds one entry, the directory [A/sub.png]. *)
Definition fs_subdir : filesystem :=
  MkFs
    (fun p => String.eqb p "A" || String.eqb p "A/sub.png")
    (fun p =>
       if String.eqb p "A" then Ok ["sub.png"]
       else if String.eqb p "A/sub.png" then Ok []
       else Raise (OSError "No such file or directory"))
    (fun _ => Ok 0)
    (fun _ => Ok 4096)
    (fun _ => Raise (OSError "Is a directory")).

(** The name U+00B2 followed by "1.png": a superscript two, then a digit. *)
Definition superscript_name : string := String (ascii_of_N 178) "1.png".

(** Directory [A] holds a.png and directory [B] holds b.jpg. *)
Definition fs_ab : filesystem :=
  MkFs
    (fun p => String.eqb p "A" || String.eqb p "B")
    (fun p =>
       if String.eqb p "A" then Ok ["a.png"]
       else if String.eqb p "B" then Ok ["b.jpg"]
       else Raise (OSError "No such file or directory"))
    (fun _ => Ok 0)
    (fun _ => Ok 1)
    (fun _ => Ok im_plain).

Definition ab_names (d : string) : list string :=
  if String.eqb d "A" then ["a.png"] else ["b.jpg"].

(** Directory [H] holds one entry, the file named .png. *)
Definition fs_hidden : filesystem :=
  MkFs
    (fun p => String.eqb p "H")
    (fun p =>
       if String.eqb p "H" then Ok [".png"]
       else Raise (OSError "No such file or directory"))
    (fun _ => Ok 0)
    (fun _ => Ok 1)
    (fun _ => Ok im_plain).

(** * The input schema and further notions *)

(** INPUT_TYPES: the entries of the [sort_by] choice, its default, and the
    least [file_number] the schema lets through. *)
Definition sort_by_choices : list string :=
  ["Filename"; "Date (Newest First)"; "Date (Oldest First)"; "FileSize"].

Definition sort_by_default : string := "Filename".

Definition file_number_min : Z := 0.

(** [s] is empty or starts with a character that is no decimal digit. *)
Definition starts_nondecimal (s : string) : Prop :=
  match s with
  | EmptyString => True
  | String c _ => Str.isdecimal c = false
  end.

(** [b / 255.0], computed in float32: one sample of the image tensor. *)
Definition pixel_value (b : N) : float32 :=
  F32.div (F32.of_Z (Z.of_N b)) (F32.of_Z 255).

(** The sample of the byte [b] lies in [0, 1], within [2^-25] of [b/255]. *)
Definition pixel_close (b : N) : bool :=
  match f32_value (pixel_value b) with
  | Some q =>
      Qle_bool (Qabs (q - (Z.of_N b # 255))) (1 # 33554432)
      && Qle_bool 0 q && Qle_bool q 1
  | None => false
  end.

(** Every byte with its sample. *)
Definition pixel_table : list (N * float32) :=
  map (fun b => (b, pixel_value b)) all_bytes.

(** The samples of two bytes compare as the bytes do. *)
Definition pixel_table_ordered : bool :=
  let t := pixel_table in
  List.forallb
    (fun x =>
       List.forallb
         (fun y => Bool.eqb (SFltb (snd x) (snd y)) (fst x <? fst y)%N) t)
    t.

(** A snapshot on which no modification time is read. *)
Definition fs_no_stat : filesystem :=
  MkFs (isdir fs_demo) (listdir fs_demo)
    (fun _ => Raise (OSError "Permission denied"))
    (getsize fs_demo) (image_open fs_demo).

(** The snapshot [fs_demo] where directory [B] cannot be listed. *)
Definition fs_unlisted : filesystem :=
  with_listdir fs_demo
    (fun p =>
       if String.eqb p "B" then Raise (OSError "Permission denied")
       else listdir fs_demo p).

(** The snapshot [fs_demo] where only A/c.JPG does not decode. *)
Definition fs_one_bad : filesystem :=
  MkFs (isdir fs_demo) (listdir fs_demo) (getmtime fs_demo) (getsize fs_demo)
    (fun p =>
       if String.eqb p "A/c.JPG"
       then Raise (UnidentifiedImageError "cannot identify image file")
       else image_open fs_demo p).

(** Directory [T] holds notes.txt and readme.md, no image. *)
Definition fs_texts : filesystem :=
  MkFs
    (fun p => String.eqb p "T")
    (fun p =>
       if String.eqb p "T" then Ok ["notes.txt"; "readme.md"]
       else Raise (OSError "No such file or directory"))
    (fun _ => Ok 0)
    (fun _ => Ok 1)
    (fun _ => Ok im_plain).

(** * Sanity checks of the library functions *)

Example strip_ex : Str.strip "  /data/a b  " = "/data/a b".
Proof. reflexivity. Qed.

Example split_ex : Str.split ";" "A;;B c;" = ["A"; ""; "B c"; ""].
Proof. reflexivity. Qed.

Example lower_ex : Str.lower "File10.JPG" = "file10.jpg".
Proof. reflexivity. Qed.

Example int_ex : Str.int "0010" = Ok 10.
Proof. reflexivity. Qed.

Example basename_ex : Path.basename "/data/in/file10.jpg" = "file10.jpg".
Proof. reflexivity. Qed.

Example join_ex : Path.join "/data/in" "a.png" = "/data/in/a.png"
  /\ Path.join "/data/in/" "a.png" = "/data/in/a.png".
Proof. split; reflexivity. Qed.

Example splitext_ex :
  Path.splitext "a.tar.png" = ("a.tar", ".png")
  /\ Path.splitext ".png" = (".png", "")
  /\ Path.splitext "noext" = ("noext", "").
Proof. repeat split; reflexivity. Qed.

Example split_digits_ex :
  Re.split_digits "file10.jpg" = ["file"; "10"; ".jpg"]
  /\ Re.split_digits "10" = [""; "10"; ""]
  /\ Re.split_digits "a1b22" = ["a"; "1"; "b"; "22"; ""]
  /\ Re.split_digits "" = [""].
Proof. repeat split; reflexivity. Qed.

(** * Proofs *)

(** ** The exception monad *)

Lemma bind_ok {A B : Type} (r : result A) (k : A -> result B) (b : B) :
  bind r k = Ok b -> exists a, r = Ok a /\ k a = Ok b.
Proof.
  destruct r as [a | e]; simpl; intros H; [eauto | discriminate].
Qed.

Lemma mapM_ok_Forall2 {A B : Type} (f : A -> result B) (l : list A) (ys : list B) :
  mapM f l = Ok ys -> Forall2 (fun x y => f x = Ok y) l ys.
Proof.
  revert ys. induction l as [| x l IH]; simpl; intros ys H.
  - inversion H. constructor.
  - apply bind_ok in H. destruct H as [y [Hy H]].
    apply bind_ok in H. destruct H as [ys' [Hys H]].
    inversion H. subst. constructor; auto.
Qed.

Lemma Forall2_mapM {A B : Type} (f : A -> result B) (l : list A) (ys : list B) :
  Forall2 (fun x y => f x = Ok y) l ys -> mapM f l = Ok ys.
Proof.
  induction 1 as [| x y l ys Hxy _ IH]; simpl; [reflexivity |].
  rewrite Hxy. simpl. rewrite IH. reflexivity.
Qed.

Lemma mapM_is_ok {A B : Type} (f : A -> result B) (l : list A) :
  (forall x, In x l -> is_ok (f x)) -> is_ok (mapM f l).
Proof.
  induction l as [| x l IH]; simpl; intros H.
  - eexists. reflexivity.
  - destruct (H x) as [y Hy]; [now left |].
    destruct IH as [ys Hys]; [intros; apply H; now right |].
    rewrite Hy, Hys. eexists. reflexivity.
Qed.

Lemma mapM_ok_In {A B : Type} (f : A -> result B) (l : list A) (ys : list B) :
  mapM f l = Ok ys -> forall x, In x l -> is_ok (f x).
Proof.
  intros H. apply mapM_ok_Forall2 in H.
  induction H as [| x y l ys Hxy _ IH]; simpl; intros z Hz; [contradiction |].
  destruct Hz as [<- | Hz]; [eexists; eassumption | auto].
Qed.

(** ** Decorated lists *)

Section Decorate.

Variables A K : Type.
Variable key : A -> result K.

Lemma decorate_ok (x : A) (p : K * A) :
  decorate key x = Ok p -> snd p = x /\ key x = Ok (fst p).
Proof.
  unfold decorate. intros H. apply bind_ok in H.
  destruct H as [k [Hk H]]. inversion H. subst. simpl. auto.
Qed.

Lemma decorated_snd (l : list A) (dl : list (K * A)) :
  mapM (decorate key) l = Ok dl -> map snd dl = l.
Proof.
  intros H. apply mapM_ok_Forall2 in H.
  induction H as [| x p l dl Hxp _ IH]; simpl; [reflexivity |].
  apply decorate_ok in Hxp. destruct Hxp as [-> _]. now rewrite IH.
Qed.

Lemma decorated_key (l : list A) (dl : list (K * A)) :
  mapM (decorate key) l = Ok dl ->
  Forall (fun p => key (snd p) = Ok (fst p)) dl.
Proof.
  intros H. apply mapM_ok_Forall2 in H.
  induction H as [| x p l dl Hxp _ IH]; constructor; auto.
  apply decorate_ok in Hxp. destruct Hxp as [-> Hk]. exact Hk.
Qed.

Lemma decorated_filter (q : A -> bool) (l : list A) (dl : list (K * A)) :
  mapM (decorate key) l = Ok dl ->
  mapM (decorate key) (filter q l) = Ok (filter (fun p => q (snd p)) dl).
Proof.
  intros H. apply mapM_ok_Forall2 in H. apply Forall2_mapM.
  induction H as [| x p l dl Hxp _ IH]; simpl; [constructor |].
  destruct (decorate_ok _ Hxp) as [Hs _]. rewrite Hs.
  destruct (q x); [constructor |]; assumption.
Qed.

Lemma decorate_is_ok (l : list A) :
  (forall x, In x l -> is_ok (key x)) -> is_ok (mapM (decorate key) l).
Proof.
  intros H. apply mapM_is_ok. intros x Hx.
  destruct (H x Hx) as [k Hk]. exists (k, x). unfold decorate.
  now rewrite Hk.
Qed.

End Decorate.

(** ** Insertion sort over a strict total order *)

Section SortTheory.

Variables A K : Type.
Variable ltb : K -> K -> bool.

Hypothesis ltb_irrefl : forall a, ltb a a = false.
Hypothesis ltb_trans :
  forall a b c, ltb a b = true -> ltb b c = true -> ltb a c = true.
Hypothesis ltb_total : forall a b, ltb a b = false -> ltb b a = false -> a = b.

Local Abbreviation le_pair := (@le_pair A K ltb).

Lemma tie_eq (a b : K) : tie ltb a b = true <-> a = b.
Proof.
  unfold tie. split.
  - intros H. apply andb_true_iff in H. destruct H as [H1 H2].
    apply negb_true_iff in H1, H2. auto.
  - intros ->. now rewrite ltb_irrefl.
Qed.

Lemma ltb_asym (a b : K) : ltb a b = true -> ltb b a = false.
Proof.
  intros H. destruct (ltb b a) eqn:E; [| reflexivity].
  rewrite <- (ltb_irrefl a). symmetry. eapply ltb_trans; eassumption.
Qed.

Lemma nlt_trans (a b c : K) :
  ltb b a = false -> ltb c b = false -> ltb c a = false.
Proof.
  intros Hab Hbc. destruct (ltb c a) eqn:Hca; [| reflexivity].
  destruct (ltb a b) eqn:E.
  - rewrite <- Hbc. symmetry. eapply ltb_trans; eassumption.
  - assert (a = b) by auto. subst. congruence.
Qed.

Lemma le_pair_trans (x y z : K * A) : le_pair x y -> le_pair y z -> le_pair x z.
Proof. unfold le_pair. intros. eapply nlt_trans; eassumption. Qed.

Lemma insert_p_perm (x : K * A) (l : list (K * A)) :
  Permutation (x :: l) (insert_p ltb x l).
Proof.
  induction l as [| y l IH]; simpl; [reflexivity |].
  destruct (ltb (fst y) (fst x)); [| reflexivity].
  rewrite perm_swap. now constructor.
Qed.

Lemma isort_p_perm (l : list (K * A)) : Permutation l (isort_p ltb l).
Proof.
  induction l as [| x l IH]; simpl; [reflexivity |].
  rewrite <- insert_p_perm. now constructor.
Qed.

Lemma insert_p_sorted (x : K * A) (l : list (K * A)) :
  StronglySorted le_pair l -> StronglySorted le_pair (insert_p ltb x l).
Proof.
  induction 1 as [| y l Hs IH Hy]; simpl.
  - repeat constructor.
  - destruct (ltb (fst y) (fst x)) eqn:E.
    + constructor; [exact IH |].
      eapply Permutation_Forall; [apply insert_p_perm |].
      constructor; [| exact Hy].
      unfold le_pair. now apply ltb_asym.
    + constructor; [now constructor |].
      constructor; [exact E |].
      eapply Forall_impl; [| exact Hy].
      intros z Hz. eapply le_pair_trans; [| exact Hz]. exact E.
Qed.

Lemma isort_p_sorted (l : list (K * A)) : StronglySorted le_pair (isort_p ltb l).
Proof.
  induction l as [| x l IH]; simpl; [constructor | now apply insert_p_sorted].
Qed.

(** Stability: the elements of one key keep their order. *)
Lemma insert_p_filter (k : K) (x : K * A) (l : list (K * A)) :
  filter (fun y => tie ltb k (fst y)) (insert_p ltb x l)
  = filter (fun y => tie ltb k (fst y)) (x :: l).
Proof.
  induction l as [| y l IH]; [reflexivity |].
  simpl insert_p. destruct (ltb (fst y) (fst x)) eqn:E; [| reflexivity].
  simpl filter at 1. rewrite IH. simpl.
  destruct (tie ltb k (fst y)) eqn:Hy; [| reflexivity].
  apply tie_eq in Hy. subst k.
  assert (T : tie ltb (fst y) (fst x) = false) by (unfold tie; now rewrite E).
  rewrite T. reflexivity.
Qed.

Lemma isort_p_filter (k : K) (l : list (K * A)) :
  filter (fun y => tie ltb k (fst y)) (isort_p ltb l)
  = filter (fun y => tie ltb k (fst y)) l.
Proof.
  induction l as [| x l IH]; [reflexivity |].
  simpl isort_p. rewrite insert_p_filter. simpl. now rewrite IH.
Qed.

(** Two sorted lists with the same elements of every key, in the same
    order, are one list. *)
Lemma sorted_unique (l1 l2 : list (K * A)) :
  StronglySorted le_pair l1 -> StronglySorted le_pair l2 ->
  (forall k, filter (fun y => tie ltb k (fst y)) l1
             = filter (fun y => tie ltb k (fst y)) l2) ->
  l1 = l2.
Proof.
  intros H1. revert l2.
  induction H1 as [| x l1 Hs1 IH Hx]; intros l2 H2 Hf.
  - destruct l2 as [| y l2]; [reflexivity |].
    specialize (Hf (fst y)). simpl in Hf.
    rewrite (proj2 (tie_eq (fst y) (fst y)) eq_refl) in Hf. discriminate.
  - destruct l2 as [| y l2].
    + specialize (Hf (fst x)). simpl in Hf.
      rewrite (proj2 (tie_eq (fst x) (fst x)) eq_refl) in Hf. discriminate.
    + inversion H2 as [| y' l2' Hs2 Hy]; subst.
      assert (Hk : fst x = fst y).
      { apply ltb_total.
        - pose proof (Hf (fst x)) as Hfx. simpl in Hfx.
          rewrite (proj2 (tie_eq (fst x) (fst x)) eq_refl) in Hfx.
          destruct (tie ltb (fst x) (fst y)) eqn:T.
          + apply tie_eq in T. rewrite T. apply ltb_irrefl.
          + assert (Hin : In x (filter (fun z => tie ltb (fst x) (fst z)) l2)).
            { rewrite <- Hfx. now left. }
            apply filter_In in Hin. destruct Hin as [Hin _].
            rewrite Forall_forall in Hy. apply (Hy x Hin).
        - pose proof (Hf (fst y)) as Hfy. simpl in Hfy.
          rewrite (proj2 (tie_eq (fst y) (fst y)) eq_refl) in Hfy.
          destruct (tie ltb (fst y) (fst x)) eqn:T.
          + apply tie_eq in T. rewrite T. apply ltb_irrefl.
          + assert (Hin : In y (filter (fun z => tie ltb (fst y) (fst z)) l1)).
            { rewrite Hfy. now left. }
            apply filter_In in Hin. destruct Hin as [Hin _].
            rewrite Forall_forall in Hx. apply (Hx y Hin). }
      pose proof (Hf (fst x)) as Hfx. simpl in Hfx.
      rewrite (proj2 (tie_eq (fst x) (fst x)) eq_refl) in Hfx.
      rewrite <- Hk in Hfx.
      rewrite (proj2 (tie_eq (fst x) (fst x)) eq_refl) in Hfx.
      inversion Hfx as [[Hxy Hrest]]. subst y. f_equal.
      apply IH; [exact Hs2 |].
      intros k. specialize (Hf k). simpl in Hf.
      destruct (tie ltb k (fst x)); [now inversion Hf | exact Hf].
Qed.

End SortTheory.

(** ** What [sorted] returns *)

Lemma StronglySorted_snoc {A : Type} (R : A -> A -> Prop) (l : list A) (x : A) :
  StronglySorted R l -> Forall (fun y => R y x) l ->
  StronglySorted R (l ++ [x]).
Proof.
  induction 1 as [| y l Hs IH Hy]; simpl; intros Hx.
  - repeat constructor.
  - inversion Hx; subst. constructor; [auto |].
    apply Forall_app. split; [exact Hy | now repeat constructor].
Qed.

Lemma StronglySorted_rev {A : Type} (R : A -> A -> Prop) (l : list A) :
  StronglySorted R l -> StronglySorted (fun x y => R y x) (rev l).
Proof.
  induction 1 as [| y l Hs IH Hy]; simpl; [constructor |].
  apply StronglySorted_snoc; [exact IH |].
  apply Forall_rev. exact Hy.
Qed.

Lemma StronglySorted_map {A B : Type} (R : B -> B -> Prop) (f : A -> B)
  (l : list A) :
  StronglySorted (fun x y => R (f x) (f y)) l -> StronglySorted R (map f l).
Proof.
  induction 1 as [| y l Hs IH Hy]; simpl; constructor; auto.
  apply Forall_map. exact Hy.
Qed.

Lemma StronglySorted_weaken {A : Type} (R S : A -> A -> Prop) (l : list A) :
  (forall x y, In x l -> In y l -> R x y -> S x y) ->
  StronglySorted R l -> StronglySorted S l.
Proof.
  intros H Hs. induction Hs as [| y l Hs IH Hy]; constructor.
  - apply IH. intros; apply H; simpl; auto.
  - rewrite Forall_forall in *. intros z Hz. apply H; simpl; auto.
Qed.

Lemma filter_none {A : Type} (f : A -> bool) (l : list A) :
  (forall y, In y l -> f y = false) -> filter f l = [].
Proof.
  induction l as [| x l IH]; simpl; intros H; [reflexivity |].
  rewrite (H x (or_introl eq_refl)). apply IH. intros; apply H; now right.
Qed.

Lemma perm_filter {A : Type} (f : A -> bool) (l1 l2 : list A) :
  Permutation l1 l2 -> Permutation (filter f l1) (filter f l2).
Proof.
  induction 1 as [| x l1 l2 _ IH | x y l | l1 l2 l3 _ IH1 _ IH2]; simpl.
  - constructor.
  - destruct (f x); [now constructor | exact IH].
  - destruct (f x), (f y); try reflexivity. constructor.
  - now transitivity (filter f l2).
Qed.

Section SortedSpec.

Variables A K : Type.
Variable lt : K -> K -> result bool.
Variable ltb : K -> K -> bool.
Variable key : A -> result K.

(** The keys on which [<] answers, and answers [ltb]. *)
Variable good : K -> Prop.

Hypothesis order : key_order lt ltb key good.

Let lt_good := ko_lt_good order.
Let key_good := ko_key_good order.
Let ltb_irrefl := ko_irrefl order.
Let ltb_trans := ko_trans order.
Let ltb_total := ko_total order.

Local Abbreviation good_pair := (@good_pair A K good).
Local Abbreviation arrange := (@arrange A K ltb).
Local Abbreviation has_key := (@has_key A K ltb key).
Local Abbreviation same := (@same A K ltb key).
Local Abbreviation key_rel := (@key_rel A K ltb key).


Lemma insert_agree (x : K * A) (l : list (K * A)) :
  good_pair x -> Forall good_pair l ->
  insert lt x l = Ok (insert_p ltb x l).
Proof.
  intros Hx Hl. induction Hl as [| y l Hy _ IH]; simpl; [reflexivity |].
  rewrite (lt_good Hy Hx). simpl.
  destruct (ltb (fst y) (fst x)); [| reflexivity].
  rewrite IH. reflexivity.
Qed.

Lemma isort_agree (l : list (K * A)) :
  Forall good_pair l -> isort lt l = Ok (isort_p ltb l).
Proof.
  induction 1 as [| x l Hx Hl IH]; simpl; [reflexivity |].
  rewrite IH. simpl. apply insert_agree; [exact Hx |].
  eapply Permutation_Forall; [apply isort_p_perm | exact Hl].
Qed.

Lemma decorated_good (l : list A) (dl : list (K * A)) :
  mapM (decorate key) l = Ok dl -> Forall good_pair dl.
Proof.
  intros H. apply decorated_key in H.
  eapply Forall_impl; [| exact H]. intros p Hp. eapply key_good, Hp.
Qed.


Lemma sorted_decorated (reverse : bool) (l : list A) (dl : list (K * A)) :
  mapM (decorate key) l = Ok dl ->
  sorted lt key reverse l = Ok (map snd (arrange reverse dl)).
Proof.
  intros H. unfold sorted, arrange. rewrite H. simpl.
  rewrite isort_agree; [reflexivity |].
  pose proof (decorated_good _ H) as Hg.
  destruct reverse; [now apply Forall_rev | exact Hg].
Qed.

Lemma sorted_inv (reverse : bool) (l out : list A) :
  sorted lt key reverse l = Ok out ->
  exists dl, mapM (decorate key) l = Ok dl /\ out = map snd (arrange reverse dl).
Proof.
  intros H. destruct (mapM (decorate key) l) as [dl | e] eqn:E.
  - exists dl. split; [reflexivity |].
    rewrite (sorted_decorated reverse _ E) in H. now inversion H.
  - unfold sorted in H. rewrite E in H. discriminate.
Qed.

Lemma sorted_is_ok (reverse : bool) (l : list A) :
  (forall x, In x l -> is_ok (key x)) -> is_ok (sorted lt key reverse l).
Proof.
  intros H. destruct (decorate_is_ok key l H) as [dl Hdl].
  eexists. apply sorted_decorated. exact Hdl.
Qed.

Lemma sorted_keys_ok (reverse : bool) (l out : list A) :
  sorted lt key reverse l = Ok out -> forall x, In x l -> is_ok (key x).
Proof.
  intros H x Hx. apply sorted_inv in H. destruct H as [dl [Hdl _]].
  destruct (mapM_ok_In _ _ Hdl x Hx) as [p Hp].
  apply decorate_ok in Hp. destruct Hp as [_ Hp]. eexists. exact Hp.
Qed.

Lemma arrange_perm (reverse : bool) (dl : list (K * A)) :
  Permutation dl (arrange reverse dl).
Proof.
  unfold arrange. destruct reverse.
  - rewrite <- Permutation_rev, <- isort_p_perm. apply Permutation_rev.
  - apply isort_p_perm.
Qed.

Lemma sorted_perm (reverse : bool) (l out : list A) :
  sorted lt key reverse l = Ok out -> Permutation l out.
Proof.
  intros H. apply sorted_inv in H. destruct H as [dl [Hdl ->]].
  rewrite <- (decorated_snd _ _ Hdl) at 1.
  apply Permutation_map, arrange_perm.
Qed.


Lemma has_key_decorated (k : K) (dl : list (K * A)) :
  Forall (fun p => key (snd p) = Ok (fst p)) dl ->
  filter (has_key k) (map snd dl)
  = map snd (filter (fun p => tie ltb k (fst p)) dl).
Proof.
  intros H. rewrite filter_map_swap. f_equal.
  apply filter_ext_in. rewrite Forall_forall in H.
  intros p Hp. unfold has_key. now rewrite (H p Hp).
Qed.

Lemma arrange_filter (reverse : bool) (k : K) (dl : list (K * A)) :
  filter (fun p => tie ltb k (fst p)) (arrange reverse dl)
  = filter (fun p => tie ltb k (fst p)) dl.
Proof.
  unfold arrange. destruct reverse.
  - rewrite filter_rev, (@isort_p_filter _ _ ltb ltb_irrefl ltb_total), filter_rev.
    apply rev_involutive.
  - apply (@isort_p_filter _ _ ltb ltb_irrefl ltb_total).
Qed.

(** Stability of [sorted], with and without [reverse]. *)
Lemma sorted_stable (reverse : bool) (l out : list A) (k : K) :
  sorted lt key reverse l = Ok out ->
  filter (has_key k) out = filter (has_key k) l.
Proof.
  intros H. apply sorted_inv in H. destruct H as [dl [Hdl ->]].
  pose proof (decorated_key _ _ Hdl) as Hk.
  rewrite has_key_decorated.
  - rewrite arrange_filter, <- has_key_decorated by exact Hk.
    now rewrite (decorated_snd _ _ Hdl).
  - eapply Permutation_Forall; [apply arrange_perm | exact Hk].
Qed.


Lemma arrange_sorted (reverse : bool) (dl : list (K * A)) :
  StronglySorted
    (if reverse then ge_pair (A:=A) ltb else le_pair (A:=A) ltb)
    (arrange reverse dl).
Proof.
  unfold arrange. destruct reverse.
  - apply (StronglySorted_rev (R := le_pair ltb)).
    apply (@isort_p_sorted _ _ ltb ltb_irrefl ltb_trans ltb_total).
  - apply (@isort_p_sorted _ _ ltb ltb_irrefl ltb_trans ltb_total).
Qed.

(** The result is in ascending order of the keys, descending with
    [reverse]. *)
Lemma sorted_sorted (reverse : bool) (l out : list A) :
  sorted lt key reverse l = Ok out -> StronglySorted (key_rel reverse) out.
Proof.
  intros H. apply sorted_inv in H. destruct H as [dl [Hdl ->]].
  apply StronglySorted_map.
  pose proof (decorated_key _ _ Hdl) as Hk.
  assert (Hk' : Forall (fun p => key (snd p) = Ok (fst p)) (arrange reverse dl)).
  { eapply Permutation_Forall; [apply arrange_perm | exact Hk]. }
  rewrite Forall_forall in Hk'.
  eapply StronglySorted_weaken; [| apply arrange_sorted].
  intros p q Hp Hq R. exists (fst p), (fst q).
  repeat split; [now apply Hk' | now apply Hk' |].
  destruct reverse; exact R.
Qed.

(** Two lists with the same elements of every key, in the same order,
    are sorted to one list. *)
Lemma sorted_invariant (reverse : bool) (l1 l2 : list A) :
  (forall x, In x l1 -> is_ok (key x)) ->
  (forall x, In x l2 -> is_ok (key x)) ->
  (forall k, filter (has_key k) l1 = filter (has_key k) l2) ->
  sorted lt key reverse l1 = sorted lt key reverse l2.
Proof.
  intros H1 H2 Hf.
  destruct (decorate_is_ok key l1 H1) as [dl1 Hd1].
  destruct (decorate_is_ok key l2 H2) as [dl2 Hd2].
  rewrite (sorted_decorated reverse _ Hd1), (sorted_decorated reverse _ Hd2).
  do 2 f_equal.
  assert (Hdf : forall k, filter (fun p => tie ltb k (fst p)) dl1
                          = filter (fun p => tie ltb k (fst p)) dl2).
  { intros k.
    pose proof (decorated_filter key (has_key k) _ Hd1) as F1.
    pose proof (decorated_filter key (has_key k) _ Hd2) as F2.
    rewrite (Hf k), F2 in F1. inversion F1 as [E].
    transitivity (filter (fun p => has_key k (snd p)) dl1).
    - apply filter_ext_in. intros p Hp.
      pose proof (decorated_key _ _ Hd1) as Hk. rewrite Forall_forall in Hk.
      unfold has_key. now rewrite (Hk p Hp).
    - rewrite <- E. apply filter_ext_in. intros p Hp.
      pose proof (decorated_key _ _ Hd2) as Hk. rewrite Forall_forall in Hk.
      unfold has_key. now rewrite (Hk p Hp). }
  unfold arrange. destruct reverse.
  - f_equal.
    apply (@sorted_unique _ _ ltb ltb_irrefl ltb_total);
      try apply (@isort_p_sorted _ _ ltb ltb_irrefl ltb_trans ltb_total).
    intros k.
    rewrite !(@isort_p_filter _ _ ltb ltb_irrefl ltb_total), !filter_rev.
    now rewrite Hdf.
  - apply (@sorted_unique _ _ ltb ltb_irrefl ltb_total);
      try apply (@isort_p_sorted _ _ ltb ltb_irrefl ltb_trans ltb_total).
    intros k. rewrite !(@isort_p_filter _ _ ltb ltb_irrefl ltb_total). apply Hdf.
Qed.


Lemma has_key_same (k : K) (x y : A) :
  has_key k x = true -> has_key k y = true -> same x y = true.
Proof.
  unfold same, has_key. destruct (key x) as [a | e]; [| discriminate].
  destruct (key y) as [b | e]; [| discriminate].
  intros Ha Hb.
  apply (tie_eq ltb ltb_irrefl ltb_total) in Ha, Hb. subst.
  now apply (tie_eq ltb ltb_irrefl ltb_total).
Qed.

Lemma has_key_of_same (x y : A) (a : K) :
  key x = Ok a -> has_key a y = same x y.
Proof. unfold same. now intros ->. Qed.

(** Among elements no two of which tie, at most one has a given key. *)
Lemma filter_has_key_short (k : K) (l : list A) :
  ForallOrdPairs (fun x y => same x y = false) l ->
  (List.length (filter (has_key k) l) <= 1)%nat.
Proof.
  induction 1 as [| x l Hx Hl IH]; simpl; [lia |].
  destruct (has_key k x) eqn:Ex; [| exact IH].
  assert (E : filter (has_key k) l = []).
  { rewrite Forall_forall in Hx.
    apply filter_none. intros y Hy.
    destruct (has_key k y) eqn:Ey; [| reflexivity].
    specialize (Hx y Hy). now rewrite (has_key_same _ _ _ Ex Ey) in Hx. }
  rewrite E. simpl. lia.
Qed.

(** Listing such elements in another order changes nothing for the
    elements of one key. *)
Lemma filter_has_key_perm (k : K) (l1 l2 : list A) :
  Permutation l1 l2 ->
  ForallOrdPairs (fun x y => same x y = false) l1 ->
  filter (has_key k) l1 = filter (has_key k) l2.
Proof.
  intros Hp Hd.
  pose proof (filter_has_key_short k Hd) as Hlen.
  assert (Hpf : Permutation (filter (has_key k) l1) (filter (has_key k) l2)).
  { now apply perm_filter. }
  destruct (filter (has_key k) l1) as [| x [| y r]].
  - now apply Permutation_nil in Hpf.
  - now apply Permutation_length_1_inv in Hpf.
  - simpl in Hlen. lia.
Qed.

End SortedSpec.

(** ** The order of the keys *)

Lemma str_ltb_irrefl (s : string) : Str.ltb s s = false.
Proof.
  unfold Str.ltb, String.ltb.
  pose proof (proj2 (String_as_OT.cmp_eq s s) eq_refl) as H.
  unfold String_as_OT.cmp in H. now rewrite H.
Qed.

Lemma str_ltb_lt (s t : string) : Str.ltb s t = true <-> String_as_OT.lt s t.
Proof.
  unfold Str.ltb, String.ltb. rewrite <- String_as_OT.cmp_lt.
  unfold String_as_OT.cmp. destruct (String.compare s t); split; congruence.
Qed.

Lemma str_ltb_trans (s t u : string) :
  Str.ltb s t = true -> Str.ltb t u = true -> Str.ltb s u = true.
Proof.
  rewrite !str_ltb_lt. apply String_as_OT.lt_trans.
Qed.

Lemma str_ltb_total (s t : string) :
  Str.ltb s t = false -> Str.ltb t s = false -> s = t.
Proof.
  unfold Str.ltb, String.ltb. rewrite (String.compare_antisym t s).
  destruct (String.compare s t) eqn:E; simpl; try discriminate.
  intros _ _. now apply String.compare_eq_iff.
Qed.

Lemma part_eq_true (x y : key_part) : part_eq x y = true <-> x = y.
Proof.
  destruct x as [m | s], y as [n | t]; simpl; split; try congruence.
  - intros H. apply Z.eqb_eq in H. now subst.
  - intros H. inversion H. apply Z.eqb_refl.
  - intros H. apply String.eqb_eq in H. now subst.
  - intros H. inversion H. apply String.eqb_refl.
Qed.

Lemma part_eq_refl (x : key_part) : part_eq x x = true.
Proof. now apply part_eq_true. Qed.

Lemma part_ltb_irrefl (x : key_part) : part_ltb x x = false.
Proof.
  destruct x; simpl; [apply Z.ltb_irrefl | apply str_ltb_irrefl].
Qed.

Lemma part_ltb_trans (x y z : key_part) :
  part_ltb x y = true -> part_ltb y z = true -> part_ltb x z = true.
Proof.
  destruct x, y, z; simpl; try congruence.
  - rewrite !Z.ltb_lt. lia.
  - apply str_ltb_trans.
Qed.

Lemma part_ltb_total (x y : key_part) :
  part_ltb x y = false -> part_ltb y x = false -> x = y.
Proof.
  destruct x, y; simpl; try congruence.
  - rewrite !Z.ltb_ge. intros. f_equal. lia.
  - intros H1 H2. f_equal. now apply str_ltb_total.
Qed.

Lemma key_ltb_irrefl (a : list key_part) : key_ltb a a = false.
Proof.
  induction a as [| x a IH]; simpl; [reflexivity |].
  now rewrite part_eq_refl.
Qed.

Lemma key_ltb_trans (a b c : list key_part) :
  key_ltb a b = true -> key_ltb b c = true -> key_ltb a c = true.
Proof.
  revert b c. induction a as [| x a IH]; intros [| y b] [| z c]; simpl;
    try congruence.
  destruct (part_eq x y) eqn:Exy, (part_eq y z) eqn:Eyz.
  - apply part_eq_true in Exy, Eyz. subst. rewrite part_eq_refl. apply IH.
  - apply part_eq_true in Exy. subst. rewrite Eyz. auto.
  - apply part_eq_true in Eyz. subst. rewrite Exy. auto.
  - intros Hxy Hyz. pose proof (part_ltb_trans _ _ _ Hxy Hyz) as Hxz.
    destruct (part_eq x z) eqn:Exz; [| exact Hxz].
    apply part_eq_true in Exz. subst. now rewrite part_ltb_irrefl in Hxz.
Qed.

Lemma key_ltb_total (a b : list key_part) :
  key_ltb a b = false -> key_ltb b a = false -> a = b.
Proof.
  revert b. induction a as [| x a IH]; intros [| y b]; simpl; try congruence.
  destruct (part_eq x y) eqn:Exy.
  - apply part_eq_true in Exy. subst. rewrite part_eq_refl.
    intros. f_equal. auto.
  - destruct (part_eq y x) eqn:Eyx.
    + apply part_eq_true in Eyx. subst. now rewrite part_eq_refl in Exy.
    + intros H1 H2. rewrite (part_ltb_total _ _ H1 H2) in Exy.
      now rewrite part_eq_refl in Exy.
Qed.

(** On two parts of one type, [<] answers. *)
Lemma part_lt_same_type (text : bool) (x y : key_part) :
  (if text then is_str x else is_int x) ->
  (if text then is_str y else is_int y) ->
  part_lt x y = Ok (part_ltb x y).
Proof.
  destruct text, x, y; simpl; intros; try contradiction; reflexivity.
Qed.

(** On two keys with texts and integers at the same positions, [<]
    never meets an [int] and a [str]. *)
Lemma list_lt_alternating (text : bool) (a b : list key_part) :
  alternating text a -> alternating text b ->
  list_lt a b = Ok (key_ltb a b).
Proof.
  revert text b. induction a as [| x a IH]; intros text [| y b]; simpl;
    try reflexivity.
  intros [Hx Ha] [Hy Hb].
  destruct (part_eq x y); [now apply (IH (negb text)) |].
  now apply (part_lt_same_type text).
Qed.

(** ** The split at digit runs and the key of a name *)

Lemma append_empty_r (s : string) : (s ++ "")%string = s.
Proof. induction s; simpl; congruence. Qed.

Lemma append_assoc (s t u : string) :
  ((s ++ t) ++ u)%string = (s ++ (t ++ u))%string.
Proof. induction s; simpl; congruence. Qed.

Lemma split_digits_shape (name : string) : digit_runs (Re.split_digits name).
Proof.
  induction name as [| c rest IH]; simpl.
  - now constructor.
  - remember (Re.split_digits rest) as pieces eqn:E. clear E.
    assert (Hone : decimal_run (String c "") \/ Str.isdecimal c = false).
    { destruct (Str.isdecimal c) eqn:Hc; [left | now right].
      split; [discriminate | simpl; now rewrite Hc]. }
    destruct (Str.isdecimal c) eqn:Hc.
    + destruct Hone as [Hone | Hone]; [| discriminate].
      destruct IH as [t Ht | t d more Ht Hd Hmore Hmid].
      * destruct t; apply runs_more; try reflexivity; try exact Hone;
          try exact I; now constructor.
      * destruct t as [| c' t'].
        -- apply runs_more; [reflexivity | | exact Hmore | exact Hmid].
           destruct Hd as [_ Hd]. split; [discriminate |].
           simpl. now rewrite Hc, Hd.
        -- apply runs_more; [reflexivity | exact Hone | | discriminate].
           now apply runs_more.
    + destruct IH as [t Ht | t d more Ht Hd Hmore Hmid].
      * constructor. unfold no_decimal. simpl. now rewrite Hc.
      * constructor; auto. unfold no_decimal. simpl. now rewrite Hc.
Qed.

Lemma concat_empty_cons (x : string) (l : list string) :
  String.concat "" (x :: l) = (x ++ String.concat "" l)%string.
Proof.
  destruct l; simpl; [now rewrite append_empty_r | reflexivity].
Qed.

Lemma split_digits_concat (name : string) :
  String.concat "" (Re.split_digits name) = name.
Proof.
  induction name as [| c rest IH]; [reflexivity |].
  cbn [Re.split_digits].
  remember (Re.split_digits rest) as pieces eqn:E. clear E. subst rest.
  destruct (Str.isdecimal c).
  - destruct pieces as [| [| c' t'] [| d more]];
      rewrite ?concat_empty_cons; reflexivity.
  - destruct pieces as [| t more]; rewrite ?concat_empty_cons; reflexivity.
Qed.

Lemma isdecimal_isdigit (c : ascii) :
  Str.isdecimal c = true -> Str.isdigit_char c = true.
Proof. unfold Str.isdigit_char. now intros ->. Qed.

Lemma decimal_run_isdigit (d : string) :
  decimal_run d -> Str.isdigit d = true.
Proof.
  intros [Hne Hd]. unfold Str.isdigit.
  assert (He : Str.is_empty d = false) by (destruct d; [contradiction | reflexivity]).
  rewrite He. simpl. clear Hne He.
  induction d as [| c d IH]; simpl in *; [reflexivity |].
  apply andb_true_iff in Hd. destruct Hd as [Hc Hd].
  now rewrite (isdecimal_isdigit _ Hc), IH.
Qed.

Lemma decimal_run_int (d : string) :
  decimal_run d ->
  Str.int d
  = if Str.int_max_str_digits <? Z.of_nat (String.length d)
    then Raise (ValueError "Exceeds the limit (4300 digits) for integer string conversion")
    else Ok (Str.digits_value 0 d).
Proof.
  intros [Hne Hd]. unfold Str.int.
  assert (He : Str.is_empty d = false) by (destruct d; [contradiction | reflexivity]).
  now rewrite He, Hd.
Qed.

(** The key of a digit run within the limit of [int]. *)
Lemma key_of_text_run (d : string) :
  decimal_run d -> within_limit d ->
  key_of_text d = Ok (KInt (Str.digits_value 0 d)).
Proof.
  intros Hd Hl. unfold key_of_text.
  rewrite (decimal_run_isdigit Hd), (decimal_run_int Hd).
  unfold within_limit in Hl.
  destruct (Z.ltb_spec Str.int_max_str_digits (Z.of_nat (String.length d)));
    [lia | reflexivity].
Qed.

(** A digit run beyond the limit of [int] has no key. *)
Lemma key_of_text_long_run (d : string) :
  decimal_run d -> ~ within_limit d ->
  key_of_text d
  = Raise (ValueError "Exceeds the limit (4300 digits) for integer string conversion").
Proof.
  intros Hd Hl. unfold key_of_text.
  rewrite (decimal_run_isdigit Hd), (decimal_run_int Hd).
  unfold within_limit in Hl.
  destruct (Z.ltb_spec Str.int_max_str_digits (Z.of_nat (String.length d)));
    [reflexivity | lia].
Qed.

(** The key of a digit run, when it is computed. *)
Lemma key_of_text_run_inv (d : string) (x : key_part) :
  decimal_run d -> key_of_text d = Ok x -> x = KInt (Str.digits_value 0 d).
Proof.
  intros Hd. unfold key_of_text.
  rewrite (decimal_run_isdigit Hd), (decimal_run_int Hd).
  destruct (Str.int_max_str_digits <? Z.of_nat (String.length d)); simpl;
    [discriminate | now intros [= <-]].
Qed.

Lemma no_decimal_not_all (t : string) :
  no_decimal t -> negb (Str.is_empty t) && Str.forallb Str.isdecimal t = false.
Proof.
  unfold no_decimal. destruct t as [| c t]; simpl; [reflexivity |].
  intros H. apply andb_true_iff in H. destruct H as [Hc _].
  apply negb_true_iff in Hc. now rewrite Hc.
Qed.

Lemma key_of_text_text (t : string) (x : key_part) :
  no_decimal t -> key_of_text t = Ok x -> x = KStr (Str.lower t).
Proof.
  intros Ht. unfold key_of_text, Str.int.
  destruct (Str.isdigit t).
  - rewrite (no_decimal_not_all Ht). simpl. discriminate.
  - now intros [= <-].
Qed.

(** A key that is computed is the key of the specification. *)
Lemma mapM_key_of_runs (pieces : list string) (k : list key_part) :
  digit_runs pieces -> mapM key_of_text pieces = Ok k ->
  k = key_of_runs true pieces.
Proof.
  intros Hs. revert k.
  induction Hs as [t Ht | t d rest Ht Hd Hrest IH Hmid]; intros k; simpl.
  - intros H. apply bind_ok in H. destruct H as [x [Hx H]].
    inversion H. now rewrite (key_of_text_text Ht Hx).
  - intros H. apply bind_ok in H. destruct H as [x [Hx H]].
    apply bind_ok in H. destruct H as [ys [Hys H]].
    apply bind_ok in Hys. destruct Hys as [y [Hy Hys]].
    apply bind_ok in Hys. destruct Hys as [ys' [Hys' Hys]].
    inversion Hys. inversion H. subst.
    rewrite (key_of_text_text Ht Hx), (key_of_text_run_inv Hd Hy).
    now rewrite (IH _ Hys').
Qed.

Lemma natural_sort_key_spec (s : string) (k : list key_part) :
  natural_sort_key s = Ok k -> k = natural_key s.
Proof.
  unfold natural_sort_key, natural_key. apply mapM_key_of_runs.
  apply split_digits_shape.
Qed.

Lemma key_of_runs_alternating (text : bool) (pieces : list string) :
  alternating text (key_of_runs text pieces).
Proof.
  revert text. induction pieces as [| p ps IH]; intros text; simpl; [exact I |].
  split; [destruct text; exact I | apply IH].
Qed.

Lemma natural_key_alternating (s : string) : alternating true (natural_key s).
Proof. apply key_of_runs_alternating. Qed.

Lemma natural_sort_key_alternating (s : string) (k : list key_part) :
  natural_sort_key s = Ok k -> alternating true k.
Proof.
  intros H. rewrite (natural_sort_key_spec _ H). apply natural_key_alternating.
Qed.

(** ** [sort_files] under the four modes *)

Lemma name_order :
  key_order list_lt key_ltb natural_sort_key (alternating true).
Proof.
  constructor.
  - intros a b. apply list_lt_alternating.
  - apply natural_sort_key_alternating.
  - apply key_ltb_irrefl.
  - apply key_ltb_trans.
  - apply key_ltb_total.
Qed.

Lemma num_order (key : string -> result Z) :
  key_order num_lt Z.ltb key (fun _ => True).
Proof.
  constructor; auto.
  - apply Z.ltb_irrefl.
  - intros a b c. rewrite !Z.ltb_lt. lia.
  - intros a b. rewrite !Z.ltb_ge. lia.
Qed.



Lemma mode_has_view (fs : filesystem) (m : sort_mode) :
  exists K lt ltb key good inj, @mode_view fs m K lt ltb key good inj.
Proof.
  destruct m.
  - exists (list key_part), list_lt, key_ltb, natural_sort_key,
      (alternating true), NameKey.
    constructor; auto using name_order.
  - exists Z, num_lt, Z.ltb, (getmtime fs), (fun _ => True), NumKey.
    constructor; auto using num_order.
  - exists Z, num_lt, Z.ltb, (getmtime fs), (fun _ => True), NumKey.
    constructor; auto using num_order.
  - exists Z, num_lt, Z.ltb, (getsize fs), (fun _ => True), NumKey.
    constructor; auto using num_order.
Qed.

Section ModeView.

Variable fs : filesystem.
Variable m : sort_mode.
Variable K : Type.
Variable lt : K -> K -> result bool.
Variable ltb : K -> K -> bool.
Variable key : string -> result K.
Variable good : K -> Prop.
Variable inj : K -> sort_key.
Hypothesis view : @mode_view fs m K lt ltb key good inj.

Lemma view_key_ok (x : string) : is_ok (mode_key fs m x) <-> is_ok (key x).
Proof.
  rewrite (mv_key view). unfold is_ok.
  destruct (key x) as [k | e]; simpl; split; intros [a H];
    try discriminate; eauto.
Qed.

Lemma view_tie (a b : K) : tie sort_key_ltb (inj a) (inj b) = tie ltb a b.
Proof. unfold tie. now rewrite !(mv_ltb view). Qed.

Lemma view_same (x y : string) : same_key fs m x y = same ltb key x y.
Proof.
  unfold same_key, same, has_key. rewrite !(mv_key view).
  destruct (key x) as [a | e]; simpl; [| reflexivity].
  destruct (key y) as [b | e]; simpl; [apply view_tie | reflexivity].
Qed.

Lemma view_in_order (x y : string) :
  key_rel ltb key (mode_reverse m) x y -> in_order fs m x y.
Proof.
  intros [a [b [Ha [Hb R]]]]. exists (inj a), (inj b).
  rewrite !(mv_key view), Ha, Hb. simpl. repeat split.
  rewrite !(mv_ltb view). destruct m; exact R.
Qed.

End ModeView.

Section SortFiles.

Variable fs : filesystem.
Variable m : sort_mode.

Lemma sort_files_perm (files out : list string) :
  sort_files fs files (mode_name m) = Ok out -> Permutation files out.
Proof.
  destruct (mode_has_view fs m) as (K & lt & ltb & key & good & inj & V).
  rewrite (mv_sort V). apply (sorted_perm (mv_order V)).
Qed.

Lemma sort_files_is_ok (files : list string) :
  (forall x, In x files -> is_ok (mode_key fs m x)) ->
  is_ok (sort_files fs files (mode_name m)).
Proof.
  destruct (mode_has_view fs m) as (K & lt & ltb & key & good & inj & V).
  intros H. rewrite (mv_sort V). apply (sorted_is_ok (mv_order V)).
  intros x Hx. apply (view_key_ok V). auto.
Qed.

Lemma sort_files_keys_ok (files out : list string) :
  sort_files fs files (mode_name m) = Ok out ->
  forall x, In x files -> is_ok (mode_key fs m x).
Proof.
  destruct (mode_has_view fs m) as (K & lt & ltb & key & good & inj & V).
  rewrite (mv_sort V). intros H x Hx. apply (view_key_ok V).
  eapply (sorted_keys_ok (mv_order V)); eassumption.
Qed.

Lemma sort_files_in_order (files out : list string) :
  sort_files fs files (mode_name m) = Ok out ->
  StronglySorted (in_order fs m) out.
Proof.
  destruct (mode_has_view fs m) as (K & lt & ltb & key & good & inj & V).
  rewrite (mv_sort V). intros H.
  apply (sorted_sorted (mv_order V)) in H.
  eapply StronglySorted_weaken; [| exact H].
  intros x y _ _. apply (view_in_order V).
Qed.

Lemma sort_files_stable (files out : list string) (x : string) :
  sort_files fs files (mode_name m) = Ok out ->
  filter (same_key fs m x) out = filter (same_key fs m x) files.
Proof.
  destruct (mode_has_view fs m) as (K & lt & ltb & key & good & inj & V).
  rewrite (mv_sort V). intros H.
  rewrite !(filter_ext _ _ (view_same V x)).
  unfold same. destruct (key x) as [a | e].
  - apply (sorted_stable (mv_order V) _ _ a H).
  - now rewrite !filter_false.
Qed.

(** Candidates found in another order, but with the files of every key
    in the same order, are sorted to the same list. *)
Lemma sort_files_invariant (l1 l2 : list string) :
  (forall x, In x l1 -> is_ok (mode_key fs m x)) ->
  (forall x, In x l2 -> is_ok (mode_key fs m x)) ->
  (forall x, is_ok (mode_key fs m x) ->
             filter (same_key fs m x) l1 = filter (same_key fs m x) l2) ->
  sort_files fs l1 (mode_name m) = sort_files fs l2 (mode_name m).
Proof.
  destruct (mode_has_view fs m) as (K & lt & ltb & key & good & inj & V).
  intros H1 H2 Hf. rewrite !(mv_sort V).
  apply (sorted_invariant (mv_order V)).
  - intros x Hx. apply (view_key_ok V). auto.
  - intros x Hx. apply (view_key_ok V). auto.
  - intros k.
    destruct (existsb (has_key ltb key k) (l1 ++ l2)) eqn:E.
    + apply existsb_exists in E. destruct E as [y [Hy Hk]].
      assert (Hok : is_ok (key y)).
      { apply in_app_or in Hy. apply (view_key_ok V).
        destruct Hy; auto. }
      destruct Hok as [b Hb].
      assert (Hkb : k = b).
      { unfold has_key in Hk. rewrite Hb in Hk.
        apply (tie_eq ltb (ko_irrefl (mv_order V)) (ko_total (mv_order V))).
        exact Hk. }
      subst k.
      specialize (Hf y (proj2 (view_key_ok V y) (ex_intro _ b Hb))).
      rewrite !(filter_ext _ _ (view_same V y)) in Hf.
      rewrite !(filter_ext _ _ (fun z => @has_key_of_same _ _ ltb key y z b Hb)).
      exact Hf.
    + assert (Hnone : forall y, In y (l1 ++ l2) -> has_key ltb key k y = false).
      { intros y Hy. destruct (has_key ltb key k y) eqn:E'; [| reflexivity].
        rewrite <- E. symmetry. apply existsb_exists. eauto. }
      rewrite !filter_none; auto; intros y Hy; apply Hnone, in_or_app; auto.
Qed.

End SortFiles.

(** ** The steps of [load_image] *)

Lemma getitem_ok {A : Type} (l : list A) (i : Z) :
  0 <= i < Z.of_nat (List.length l) ->
  exists x, nth_error l (Z.to_nat i) = Some x /\ getitem l i = Ok x.
Proof.
  intros Hi. unfold getitem.
  destruct (Z.ltb_spec i 0) as [Hneg | _]; [lia |].
  destruct (Z.leb_spec 0 i) as [_ | Hneg]; [| lia].
  destruct (Z.ltb_spec i (Z.of_nat (List.length l))) as [_ | Hge]; [| lia].
  simpl. destruct (nth_error l (Z.to_nat i)) as [x |] eqn:E; [eauto |].
  apply nth_error_None in E. lia.
Qed.

Lemma clamp_index_range (file_number file_count : Z) :
  0 < file_count -> 0 <= clamp_index file_number file_count < file_count.
Proof. unfold clamp_index. lia. Qed.

Lemma lookup_band_ok (name : string) (bs : list (string * list N)) :
  existsb (String.eqb name) (map fst bs) = true ->
  is_ok (lookup_band name bs).
Proof.
  induction bs as [| [n plane] bs IH]; simpl; [discriminate |].
  rewrite (String.eqb_sym name n).
  destruct (String.eqb n name); simpl; [intros _; eexists; reflexivity | exact IH].
Qed.

(** The mask of the specification for one alpha byte. *)
Lemma make_mask_alpha (im : pil_image) :
  existsb (String.eqb "A") (getbands im) = true ->
  exists alpha, getchannel im "A" = Ok alpha /\
    make_mask im
    = Ok (MkArray [height im; width im] (map mask_value alpha)).
Proof.
  intros H. unfold make_mask. rewrite H.
  destruct (lookup_band_ok "A" (bands im) H) as [alpha Ha].
  exists alpha. split; [exact Ha |]. unfold getchannel. rewrite Ha. simpl.
  unfold rsub, from_numpy, array_div, astype_float32, np_array_band. simpl.
  rewrite !map_map. reflexivity.
Qed.

Lemma mask_close_bytes : List.forallb mask_close all_bytes = true.
Proof. vm_compute. reflexivity. Qed.

(** Every mask value is the float32 nearest, within [2^-24], to
    [1 - a/255], and lies between 0 and 1. *)
Lemma mask_value_close (a : N) :
  (a < 256)%N ->
  exists q, f32_value (mask_value a) = Some q
    /\ (Qabs (q - exact_mask a) <= 1 # 16777216)%Q
    /\ (0 <= q)%Q /\ (q <= 1)%Q.
Proof.
  intros Ha.
  assert (Hin : In a all_bytes).
  { unfold all_bytes. apply in_map_iff. exists (N.to_nat a).
    split; [apply N2Nat.id | apply in_seq; lia]. }
  pose proof (proj1 (forallb_forall _ _) mask_close_bytes a Hin) as H.
  unfold mask_close in H.
  destruct (f32_value (mask_value a)) as [q |]; [| discriminate].
  apply andb_true_iff in H. destruct H as [H H3].
  apply andb_true_iff in H. destruct H as [H1 H2].
  exists q. rewrite <- !Qle_bool_iff. auto.
Qed.

Lemma make_mask_plain (im : pil_image) :
  existsb (String.eqb "A") (getbands im) = false ->
  make_mask im = Ok (zeros [64%nat; 64%nat]).
Proof. intros H. unfold make_mask. now rewrite H. Qed.

Lemma make_mask_is_ok (im : pil_image) : is_ok (make_mask im).
Proof.
  destruct (existsb (String.eqb "A") (getbands im)) eqn:E.
  - destruct (make_mask_alpha im E) as [alpha [_ H]]. eexists. exact H.
  - eexists. now apply make_mask_plain.
Qed.


Section LoadImage.

Variable fs : filesystem.
Variables (directory : string) (file_number : Z) (sort_by : string).

(** A normal return went through every step. *)
Lemma load_image_inv (out : outputs) :
  load_image fs directory file_number sort_by = Ok out ->
  exists cands files path im m,
    collect fs directory = Ok cands
    /\ sort_files fs cands sort_by = Ok files
    /\ 0 < Z.of_nat (List.length files)
    /\ getitem files (clamp_index file_number (Z.of_nat (List.length files)))
       = Ok path
    /\ image_open fs path = Ok im
    /\ make_mask im = Ok m
    /\ out = MkOutputs (image_tensor im) (unsqueeze0 m) path
               (Path.basename path) (fst (Path.splitext (Path.basename path)))
               (Z.of_nat (List.length files)).
Proof.
  unfold load_image. intros H.
  apply bind_ok in H. destruct H as [cands [Hc H]].
  apply bind_ok in H. destruct H as [files [Hs H]].
  destruct (Z.eqb_spec (Z.of_nat (List.length files)) 0) as [E | E];
    [discriminate |].
  apply bind_ok in H. destruct H as [path [Hp H]].
  apply bind_ok in H. destruct H as [im [Hi H]].
  apply bind_ok in H. destruct H as [m [Hm H]].
  exists cands, files, path, im, m. inversion H.
  repeat split; auto. lia.
Qed.

(** With candidates, sorted, and a selected file that decodes, the call
    returns. *)
Lemma load_image_returns (cands files : list string) :
  collect fs directory = Ok cands ->
  sort_files fs cands sort_by = Ok files ->
  files <> [] ->
  (forall x, In x files -> is_ok (image_open fs x)) ->
  is_ok (load_image fs directory file_number sort_by).
Proof.
  intros Hc Hs Hne Hopen. unfold load_image. rewrite Hc. simpl.
  rewrite Hs. simpl.
  assert (Hlen : 0 < Z.of_nat (List.length files)).
  { destruct files; [contradiction | simpl; lia]. }
  destruct (Z.eqb_spec (Z.of_nat (List.length files)) 0) as [E | _]; [lia |].
  destruct (getitem_ok files (clamp_index_range file_number Hlen))
    as [path [Hnth Hget]].
  rewrite Hget. simpl.
  destruct (Hopen path (nth_error_In _ _ Hnth)) as [im Him].
  rewrite Him. simpl.
  destruct (make_mask_is_ok im) as [m Hm]. rewrite Hm. simpl.
  eexists. reflexivity.
Qed.

(** Once the candidates are sorted, the file at the clamped index alone
    decides the outcome: the call raises what opening it raises, and
    returns its outputs when it decodes. *)
Lemma load_image_selected (cands files : list string) (p : string) :
  collect fs directory = Ok cands ->
  sort_files fs cands sort_by = Ok files ->
  nth_error files
    (Z.to_nat (clamp_index file_number (Z.of_nat (List.length files))))
  = Some p ->
  (forall e, image_open fs p = Raise e ->
             load_image fs directory file_number sort_by = Raise e)
  /\ (forall im, image_open fs p = Ok im ->
        exists m,
          make_mask im = Ok m
          /\ load_image fs directory file_number sort_by
             = Ok (MkOutputs (image_tensor im) (unsqueeze0 m) p
                     (Path.basename p)
                     (fst (Path.splitext (Path.basename p)))
                     (Z.of_nat (List.length files)))).
Proof.
  intros Hc Hs Hnth.
  assert (Hlen : 0 < Z.of_nat (List.length files)).
  { destruct files; [| simpl; lia].
    destruct (Z.to_nat (clamp_index file_number
                          (Z.of_nat (List.length (@nil string)))));
      discriminate. }
  destruct (getitem_ok files (clamp_index_range file_number Hlen))
    as [p' [Hnth' Hget]].
  rewrite Hnth in Hnth'. inversion Hnth'. subst p'.
  assert (Hrun : load_image fs directory file_number sort_by
                 = (im <- image_open fs p ;;
                    mask <- make_mask im ;;
                    Ok (MkOutputs (image_tensor im) (unsqueeze0 mask) p
                          (Path.basename p)
                          (fst (Path.splitext (Path.basename p)))
                          (Z.of_nat (List.length files))))).
  { unfold load_image. rewrite Hc. simpl. rewrite Hs. simpl.
    destruct (Z.eqb_spec (Z.of_nat (List.length files)) 0) as [Z0 | _]; [lia |].
    rewrite Hget. reflexivity. }
  split.
  - intros e He. rewrite Hrun, He. reflexivity.
  - intros im Him. destruct (make_mask_is_ok im) as [m Hm].
    exists m. split; [exact Hm |]. rewrite Hrun, Him. simpl. now rewrite Hm.
Qed.

(** Without candidates the call raises its own error. *)
Lemma load_image_no_files :
  collect fs directory = Ok [] ->
  sort_files fs [] sort_by = Ok [] ->
  load_image fs directory file_number sort_by
  = Raise (FileNotFoundError no_files_message).
Proof.
  intros Hc Hs. unfold load_image. rewrite Hc. simpl. rewrite Hs. reflexivity.
Qed.

End LoadImage.

(** ** Strings and paths *)

Lemma endswith_spec (s suffix : string) :
  Str.endswith s suffix = true <-> exists p, s = (p ++ suffix)%string.
Proof.
  induction s as [| c s IH]; cbn [Str.endswith].
  - rewrite orb_false_r, String.eqb_eq. split.
    + intros <-. now exists "".
    + intros [p H]. destruct p; simpl in H; [now subst | discriminate].
  - rewrite orb_true_iff, IH, String.eqb_eq. split.
    + intros [<- | [p H]].
      * now exists "".
      * exists (String c p). simpl. now subst.
    + intros [p H]. destruct p as [| c' p]; simpl in H.
      * now left.
      * right. inversion H. eauto.
Qed.

Lemma length_append (s t : string) :
  String.length (s ++ t) = (String.length s + String.length t)%nat.
Proof. induction s; simpl; auto. Qed.

Lemma take_drop (n : nat) (s : string) :
  (Path.take n s ++ Path.drop n s)%string = s.
Proof.
  revert s. induction n as [| n IH]; intros [| c s]; simpl; try reflexivity.
  now rewrite IH.
Qed.

Lemma take_app (pre t : string) :
  Path.take (String.length pre) (pre ++ t) = pre.
Proof.
  induction pre as [| c pre IH]; simpl; [now destruct t | now rewrite IH].
Qed.

Lemma drop_app (pre t : string) :
  Path.drop (String.length pre) (pre ++ t) = t.
Proof. induction pre as [| c pre IH]; simpl; auto. Qed.

Lemma rfind_lower (c : ascii) (s : string) : -1 <= Path.rfind c s.
Proof.
  induction s as [| a s IH]; simpl; [lia |].
  destruct (Z.leb_spec 0 (Path.rfind c s)); [lia |].
  destruct (Ascii.eqb a c); lia.
Qed.

Lemma rfind_absent (c : ascii) (s : string) :
  Path.rfind c s < 0 -> no_char c s.
Proof.
  unfold no_char. induction s as [| a s IH]; simpl; [reflexivity |].
  destruct (Z.leb_spec 0 (Path.rfind c s)) as [H | H]; [lia |].
  destruct (Ascii.eqb a c); [lia |]. intros _. simpl. now apply IH.
Qed.

(** [rfind] finds the last occurrence. *)
Lemma rfind_present (c : ascii) (s : string) :
  0 <= Path.rfind c s ->
  exists pre post, s = (pre ++ String c post)%string /\ no_char c post
    /\ Path.rfind c s = Z.of_nat (String.length pre).
Proof.
  induction s as [| a s IH]; simpl; [lia |].
  destruct (Z.leb_spec 0 (Path.rfind c s)) as [H | H].
  - intros _. destruct (IH H) as (pre & post & E & Hp & Hi).
    exists (String a pre), post. simpl. rewrite E at 1.
    repeat split; [exact Hp | lia].
  - destruct (Ascii.eqb_spec a c) as [-> | Hac]; [| lia].
    intros _. exists "", s. repeat split. now apply rfind_absent.
Qed.

Lemma basename_spec (path : string) :
  last_component path (Path.basename path).
Proof.
  unfold last_component, Path.basename.
  destruct (Z.leb_spec 0 (Path.rfind "/" path)) as [H | H].
  - destruct (rfind_present _ _ H) as (pre & post & E & Hp & Hi).
    exists (pre ++ "/")%string. rewrite Hi.
    assert (Hn : Z.to_nat (Z.of_nat (String.length pre) + 1)
                 = String.length (pre ++ "/")).
    { rewrite length_append. simpl. lia. }
    assert (E' : path = ((pre ++ "/") ++ post)%string).
    { now rewrite append_assoc. }
    rewrite Hn, E', drop_app.
    repeat split; [exact Hp |].
    right. apply endswith_spec. now exists pre.
  - pose proof (rfind_lower "/" path).
    replace (Path.rfind "/" path) with (-1) by lia. simpl.
    exists "". repeat split; [now apply rfind_absent | now left].
Qed.

Lemma no_char_rfind (c : ascii) (s : string) :
  no_char c s -> Path.rfind c s = -1.
Proof.
  unfold no_char. induction s as [| a s IH]; simpl; [reflexivity |].
  intros H. apply andb_true_iff in H. destruct H as [Ha Hs].
  rewrite (IH Hs). simpl. apply negb_true_iff in Ha. now rewrite Ha.
Qed.

Lemma all_char_snoc (c : ascii) (s : string) :
  all_char c s -> all_char c (s ++ String c "").
Proof.
  unfold all_char. induction s as [| a s IH]; simpl.
  - now rewrite Ascii.eqb_refl.
  - intros H. apply andb_true_iff in H. destruct H as [Ha Hs].
    now rewrite Ha, IH.
Qed.

Lemma is_dot_all_char (s : string) :
  Str.forallb Path.is_dot s = Str.forallb (Ascii.eqb ".") s.
Proof.
  induction s as [| a s IH]; simpl; [reflexivity |].
  rewrite IH. unfold Path.is_dot. now rewrite Ascii.eqb_sym.
Qed.

(** The root [splitext] gives for a bare name: the name up to its last
    dot, or the whole name when only dots, or nothing, stand before that
    dot, and when there is no dot. *)
Lemma splitext_root (name : string) :
  no_char "/" name ->
  fst (Path.splitext name)
  = if Str.forallb Path.is_dot (final_extension_removed name)
    then name else final_extension_removed name.
Proof.
  intros Hsep. unfold final_extension_removed, Path.splitext.
  rewrite (no_char_rfind Hsep).
  pose proof (rfind_lower "." name) as Hlow.
  destruct (Z.ltb_spec (-1) (Path.rfind "." name)) as [H | H].
  - destruct (Z.ltb_spec (Path.rfind "." name) 0) as [H0 | _]; [lia |].
    simpl Z.add. rewrite Z.sub_0_r. simpl Path.drop.
    now destruct (Str.forallb Path.is_dot
                    (Path.take (Z.to_nat (Path.rfind "." name)) name)).
  - destruct (Z.ltb_spec (Path.rfind "." name) 0) as [_ | H0]; [| lia].
    simpl. now destruct (Str.forallb Path.is_dot name).
Qed.

(** ** The scan of the directories *)

Lemma scan_names_entries (dir_path : string) (names image_files : list string) :
  scan_names dir_path names image_files
  = (image_files ++ entries dir_path names)%list.
Proof.
  revert image_files. unfold entries.
  induction names as [| n names IH]; intros acc; cbn [scan_names filter].
  - simpl. now rewrite app_nil_r.
  - change (Str.endswith_any (Str.lower n) valid_extensions) with (supported n).
    rewrite IH. destruct (supported n); [| reflexivity].
    cbn [map]. now rewrite <- app_assoc.
Qed.

Lemma scan_directories_entries (fs : filesystem) (names : string -> list string)
  (directories image_files : list string) :
  (forall d, In d directories -> listdir fs d = Ok (names d)) ->
  scan_directories fs directories image_files
  = Ok (image_files ++ flat_map (fun d => entries d (names d)) directories)%list.
Proof.
  revert image_files.
  induction directories as [| d ds IH]; intros acc H; simpl.
  - now rewrite app_nil_r.
  - rewrite (H d (or_introl eq_refl)). simpl.
    rewrite IH by (intros; apply H; now right).
    now rewrite scan_names_entries, <- app_assoc.
Qed.

(** The candidates are the matching entries of the valid directories,
    directory after directory. *)
Lemma collect_entries (fs : filesystem) (names : string -> list string)
  (directory : string) :
  (forall d, In d (parse_directories fs directory) ->
             listdir fs d = Ok (names d)) ->
  collect fs directory
  = Ok (flat_map (fun d => entries d (names d)) (parse_directories fs directory)).
Proof.
  intros H. unfold collect. now rewrite (scan_directories_entries fs names _ [] H).
Qed.

(** A listing that is read is read for every directory before it. *)
Lemma scan_directories_listed (fs : filesystem)
  (directories image_files cands : list string) :
  scan_directories fs directories image_files = Ok cands ->
  forall d, In d directories -> is_ok (listdir fs d).
Proof.
  revert image_files.
  induction directories as [| d ds IH]; intros acc H d' Hd'; [contradiction |].
  simpl in H. apply bind_ok in H. destruct H as [names [Hn H]].
  destruct Hd' as [<- | Hd']; [eexists; exact Hn | eapply IH; eassumption].
Qed.

Lemma filter_flat_map {A B : Type} (f : B -> bool) (g : A -> list B)
  (l : list A) :
  filter f (flat_map g l) = flat_map (fun x => filter f (g x)) l.
Proof.
  induction l as [| x l IH]; simpl; [reflexivity |].
  now rewrite filter_app, IH.
Qed.

Lemma flat_map_ext_in {A B : Type} (f g : A -> list B) (l : list A) :
  (forall x, In x l -> f x = g x) -> flat_map f l = flat_map g l.
Proof.
  induction l as [| x l IH]; simpl; intros H; [reflexivity |].
  rewrite (H x (or_introl eq_refl)), IH; auto.
Qed.

(** ** Relative order and filters *)

Lemma before_filter {A : Type} (f : A -> bool) (x y : A) (l : list A) :
  f x = true -> f y = true -> before x y l -> before x y (filter f l).
Proof.
  intros Hx Hy (l1 & l2 & l3 & ->).
  exists (filter f l1), (filter f l2), (filter f l3).
  rewrite filter_app. simpl. rewrite Hx, filter_app. simpl. now rewrite Hy.
Qed.

Lemma filter_split_at {A : Type} (f : A -> bool) (x : A) (a r l : list A) :
  filter f l = (a ++ x :: r)%list ->
  exists p q, l = (p ++ x :: q)%list /\ filter f q = r.
Proof.
  revert a. induction l as [| z l IH]; intros a H; simpl in H.
  - destruct a; discriminate.
  - destruct (f z).
    + destruct a as [| a0 a]; simpl in H; inversion H; subst.
      * now exists [], l.
      * destruct (IH a H2) as (p & q & -> & Hq).
        now exists (a0 :: p), q.
    + destruct (IH a H) as (p & q & -> & Hq).
      now exists (z :: p), q.
Qed.

Lemma before_of_filter {A : Type} (f : A -> bool) (x y : A) (l : list A) :
  before x y (filter f l) -> before x y l.
Proof.
  intros (l1 & l2 & l3 & H).
  apply filter_split_at in H. destruct H as (p & q & -> & Hq).
  apply filter_split_at in Hq. destruct Hq as (p' & q' & -> & _).
  now exists p, p', q'.
Qed.

Lemma sort_key_ltb_irrefl (a : sort_key) : sort_key_ltb a a = false.
Proof. destruct a; simpl; [apply key_ltb_irrefl | apply Z.ltb_irrefl]. Qed.

Lemma same_key_left_ok (fs : filesystem) (m : sort_mode) (x y : string) :
  same_key fs m x y = true -> same_key fs m x x = true.
Proof.
  unfold same_key. destruct (mode_key fs m x) as [a | e]; [| discriminate].
  intros _. unfold tie. now rewrite sort_key_ltb_irrefl.
Qed.

Section SameKey.

Variable fs : filesystem.
Variable m : sort_mode.

(** Among candidates no two of which tie, the files that tie with [x]
    do not depend on the order of the listing. *)
Lemma same_key_filter_perm (x : string) (l1 l2 : list string) :
  Permutation l1 l2 ->
  ForallOrdPairs (fun a b => same_key fs m a b = false) l1 ->
  filter (same_key fs m x) l1 = filter (same_key fs m x) l2.
Proof.
  destruct (mode_has_view fs m) as (K & lt & ltb & key & good & inj & V).
  intros Hp Hd.
  rewrite !(filter_ext _ _ (view_same V x)).
  unfold same. destruct (key x) as [a | e]; [| now rewrite !filter_false].
  apply (filter_has_key_perm (mv_order V)); [exact Hp |].
  clear - Hd V. induction Hd as [| y l Hy Hl IH]; constructor; [| exact IH].
  eapply Forall_impl; [| exact Hy].
  intros z Hz. now rewrite <- (view_same V).
Qed.

End SameKey.

(** ** Splitting and trimming *)

Lemma split_not_nil (sep : ascii) (s : string) : Str.split sep s <> [].
Proof.
  induction s as [| c s IH]; simpl; [discriminate |].
  destruct (Ascii.eqb c sep); [discriminate |].
  destruct (Str.split sep s); [contradiction | discriminate].
Qed.

(** Joining the pieces with the separator gives the string back. *)
Lemma split_concat (sep : ascii) (s : string) :
  String.concat (String sep "") (Str.split sep s) = s.
Proof.
  induction s as [| c s IH]; [reflexivity |].
  cbn [Str.split]. destruct (Ascii.eqb_spec c sep) as [-> | Hc].
  - pose proof (split_not_nil sep s) as Hne.
    destruct (Str.split sep s) as [| p ps]; [contradiction |].
    cbn [String.concat]. simpl. now rewrite <- IH.
  - destruct (Str.split sep s) as [| p ps] eqn:E.
    + now destruct (split_not_nil sep s).
    + rewrite <- IH. destruct ps; reflexivity.
Qed.

Lemma split_no_sep (sep : ascii) (s : string) :
  Forall (no_char sep) (Str.split sep s).
Proof.
  induction s as [| c s IH]; cbn [Str.split].
  - repeat constructor.
  - destruct (Ascii.eqb c sep) eqn:Hc.
    + constructor; [reflexivity | exact IH].
    + destruct (Str.split sep s) as [| p ps].
      * constructor; [| constructor]. unfold no_char. simpl. now rewrite Hc.
      * inversion IH; subst. constructor; [| assumption].
        unfold no_char in *. simpl. now rewrite Hc.
Qed.

Lemma lstrip_spec (s : string) :
  exists l, s = (l ++ Str.lstrip s)%string /\ all_space l
    /\ first_not_space (Str.lstrip s).
Proof.
  induction s as [| c s IH]; simpl.
  - exists "". repeat split.
  - destruct (Str.isspace c) eqn:Hc.
    + destruct IH as (l & E & Hl & Hf). exists (String c l).
      repeat split; [simpl; now rewrite <- E | | exact Hf].
      unfold all_space. simpl. now rewrite Hc.
    + exists "". repeat split. exact Hc.
Qed.

Lemma rstrip_spec (s : string) :
  exists r, s = (Str.rstrip s ++ r)%string /\ all_space r
    /\ last_not_space (Str.rstrip s).
Proof.
  induction s as [| c s IH]; simpl.
  - exists "". repeat split.
  - destruct IH as (r & E & Hr & Hl).
    destruct (Str.rstrip s) as [| c' t] eqn:Et; simpl.
    + destruct (Str.isspace c) eqn:Hc.
      * exists (String c r). simpl in E. subst s. repeat split.
        unfold all_space. simpl. now rewrite Hc.
      * exists r. simpl in E. subst s. repeat split; assumption.
    + exists r. repeat split; [now rewrite E at 1 | exact Hr | exact Hl].
Qed.

Lemma rstrip_first (s : string) :
  first_not_space s -> first_not_space (Str.rstrip s).
Proof.
  destruct s as [| c s]; simpl; [auto |].
  intros Hc. rewrite Hc, andb_false_r. exact Hc.
Qed.

Lemma strip_spec (p : string) : stripped p (Str.strip p).
Proof.
  unfold stripped, Str.strip.
  destruct (lstrip_spec p) as (l & El & Hl & Hf).
  destruct (rstrip_spec (Str.lstrip p)) as (r & Er & Hr & Hlast).
  exists l, r. repeat split; auto.
  - now rewrite <- Er.
  - now apply rstrip_first.
Qed.

Lemma filter_map_strip (f : string -> bool) (g : string -> string)
  (l : list string) :
  map g (filter (fun p => f (g p)) l) = filter f (map g l).
Proof.
  induction l as [| x l IH]; simpl; [reflexivity |].
  destruct (f (g x)); simpl; now rewrite IH.
Qed.

(** The valid directories are the trimmed entries that name a directory,
    in the order of the string, each as often as it is written. *)
Lemma parse_directories_filter (fs : filesystem) (directory : string) :
  parse_directories fs directory
  = filter (isdir fs) (map Str.strip (Str.split ";" directory)).
Proof. unfold parse_directories. apply filter_map_strip. Qed.

Lemma existsb_eqb_In (name : string) (l : list string) :
  existsb (String.eqb name) l = true <-> In name l.
Proof.
  rewrite existsb_exists. split.
  - intros [x [Hx E]]. apply String.eqb_eq in E. now subst.
  - intros H. exists name. split; [exact H | apply String.eqb_refl].
Qed.

(** Every candidate is an entry of a valid directory whose lower-cased
    name ends with a supported extension, joined to that directory. *)
Lemma candidates_supported (fs : filesystem) (directory : string)
  (cands : list string) :
  collect fs directory = Ok cands ->
  forall c, In c cands ->
    exists d names name stem ext,
      In d (parse_directories fs directory)
      /\ listdir fs d = Ok names /\ In name names
      /\ c = Path.join d name
      /\ In ext valid_extensions
      /\ Str.lower name = (stem ++ ext)%string.
Proof.
  intros Hc c Hin.
  set (names := fun d => match listdir fs d with Ok l => l | Raise _ => [] end).
  assert (Hl : forall d, In d (parse_directories fs directory) ->
                         listdir fs d = Ok (names d)).
  { intros d Hd. destruct (scan_directories_listed _ _ _ Hc d Hd) as [l E].
    unfold names. now rewrite E. }
  rewrite (collect_entries fs names directory Hl) in Hc.
  inversion Hc. subst cands. clear Hc.
  apply in_flat_map in Hin. destruct Hin as (d & Hd & Hin).
  unfold entries in Hin. apply in_map_iff in Hin.
  destruct Hin as (name & <- & Hin). apply filter_In in Hin.
  destruct Hin as [Hname Hsup].
  unfold supported, Str.endswith_any in Hsup.
  apply existsb_exists in Hsup. destruct Hsup as (ext & Hext & Hends).
  apply endswith_spec in Hends. destruct Hends as [stem Hstem].
  exists d, (names d), name, stem, ext. repeat split; auto.
Qed.

(** ** Names whose key is computed *)

Lemma forallb_append (p : ascii -> bool) (s t : string) :
  Str.forallb p (s ++ t) = Str.forallb p s && Str.forallb p t.
Proof.
  induction s as [| c s IH]; simpl; [reflexivity |].
  now rewrite IH, andb_assoc.
Qed.

Lemma no_superscript_basename (s : string) :
  no_superscript s -> no_superscript (Path.basename s).
Proof.
  unfold no_superscript. intros H.
  destruct (basename_spec s) as (pre & E & _).
  rewrite E, forallb_append in H.
  now apply andb_true_iff in H.
Qed.

Lemma no_superscript_pieces (name : string) :
  no_superscript name -> Forall no_superscript (Re.split_digits name).
Proof.
  unfold no_superscript.
  induction name as [| c rest IH]; cbn [Re.split_digits Str.forallb]; intros H.
  - now repeat constructor.
  - apply andb_true_iff in H. destruct H as [Hc Hrest].
    specialize (IH Hrest).
    assert (P1 : Str.forallb (fun a => negb (superscript a)) (String c "") = true).
    { simpl. now rewrite Hc. }
    destruct (Str.isdecimal c).
    + destruct (Re.split_digits rest) as [| [| c' t'] [| d more]].
      * constructor; [reflexivity |]. constructor; [exact P1 | exact IH].
      * constructor; [reflexivity |]. constructor; [exact P1 | exact IH].
      * constructor; [reflexivity |].
        inversion IH as [| ? ? _ IH']. inversion IH' as [| ? ? Hd Hmore].
        constructor; [| exact Hmore].
        cbn [Str.forallb]. now rewrite Hc.
      * constructor; [reflexivity |]. constructor; [exact P1 | exact IH].
      * constructor; [reflexivity |]. constructor; [exact P1 | exact IH].
    + destruct (Re.split_digits rest) as [| t more].
      * constructor; [exact P1 | constructor].
      * inversion IH as [| ? ? Ht Hmore]. constructor; [| exact Hmore].
        cbn [Str.forallb]. now rewrite Hc.
Qed.

Lemma key_of_text_plain (t : string) :
  no_decimal t -> no_superscript t -> key_of_text t = Ok (KStr (Str.lower t)).
Proof.
  unfold no_decimal, no_superscript, key_of_text, Str.isdigit.
  destruct t as [| c t]; simpl; [reflexivity |].
  intros Hd Hs.
  apply andb_true_iff in Hd. destruct Hd as [Hd _].
  apply andb_true_iff in Hs. destruct Hs as [Hs _].
  apply negb_true_iff in Hd, Hs.
  unfold Str.isdigit_char. rewrite Hd. unfold superscript in Hs.
  simpl. rewrite Hs. reflexivity.
Qed.

Lemma mapM_key_of_text_plain (pieces : list string) :
  digit_runs pieces -> Forall no_superscript pieces ->
  Forall within_limit pieces ->
  mapM key_of_text pieces = Ok (key_of_runs true pieces).
Proof.
  induction 1 as [t Ht | t d rest Ht Hd Hrest IH Hmid]; intros Hs Hl; simpl.
  - inversion Hs; subst. now rewrite key_of_text_plain.
  - inversion Hs as [| ? ? Hst Hs']; subst.
    inversion Hs' as [| ? ? _ Hs'']; subst.
    inversion Hl as [| ? ? _ Hl']; subst.
    inversion Hl' as [| ? ? Hld Hl'']; subst.
    rewrite (key_of_text_plain Ht Hst), (key_of_text_run Hd Hld). simpl.
    now rewrite (IH Hs'' Hl'').
Qed.

Lemma concat_piece_length (p : string) (l : list string) :
  In p l -> (String.length p <= String.length (String.concat "" l))%nat.
Proof.
  induction l as [| x l IH]; [contradiction |].
  rewrite concat_empty_cons, length_append.
  intros [<- | H]; [lia | specialize (IH H); lia].
Qed.

Lemma within_limit_pieces (name : string) :
  within_limit name -> Forall within_limit (Re.split_digits name).
Proof.
  unfold within_limit. intros H. apply Forall_forall. intros p Hp.
  pose proof (concat_piece_length p _ Hp) as Hl.
  rewrite split_digits_concat in Hl. lia.
Qed.

Lemma within_limit_basename (s : string) :
  within_limit s -> within_limit (Path.basename s).
Proof.
  unfold within_limit. intros H.
  destruct (basename_spec s) as (pre & E & _).
  rewrite E, length_append in H. lia.
Qed.

(** The key of a name without superscript digits and within the limit
    of [int] is computed, and is the key of the specification. *)
Lemma natural_sort_key_plain (s : string) :
  no_superscript s -> within_limit s ->
  natural_sort_key s = Ok (natural_key s).
Proof.
  intros H Hl. unfold natural_sort_key, natural_key.
  apply mapM_key_of_text_plain; [apply split_digits_shape | |].
  - now apply no_superscript_pieces, no_superscript_basename.
  - now apply within_limit_pieces, within_limit_basename.
Qed.

(** ** More on [sorted] *)

Lemma mapM_decorate_snd {A K : Type} (key : A -> result K) (dl : list (K * A)) :
  Forall (fun p => key (snd p) = Ok (fst p)) dl ->
  mapM (decorate key) (map snd dl) = Ok dl.
Proof.
  induction 1 as [| [k x] dl Hp _ IH]; simpl; [reflexivity |].
  unfold decorate at 1. simpl in Hp. rewrite Hp. simpl. now rewrite IH.
Qed.

Lemma mapM_first_error {A B : Type} (f : A -> result B) (l1 l2 : list A)
  (x : A) (e : exn) :
  (forall y, In y l1 -> is_ok (f y)) -> f x = Raise e ->
  mapM f (l1 ++ x :: l2) = Raise e.
Proof.
  induction l1 as [| y l1 IH]; simpl; intros H Hx.
  - now rewrite Hx.
  - destruct (H y (or_introl eq_refl)) as [b Hb]. rewrite Hb. simpl.
    rewrite IH; auto.
Qed.

Lemma rev_short {A : Type} (l : list A) :
  (List.length l <= 1)%nat -> rev l = l.
Proof.
  destruct l as [| x [| y l]]; simpl; intros H; try reflexivity. lia.
Qed.

Section SortedMore.

Variables A K : Type.
Variable lt : K -> K -> result bool.
Variable ltb : K -> K -> bool.
Variable key : A -> result K.
Variable good : K -> Prop.

Hypothesis order : key_order lt ltb key good.

Local Abbreviation arrange := (@arrange A K ltb).
Local Abbreviation has_key := (@has_key A K ltb key).
Local Abbreviation same := (@same A K ltb key).

Lemma isort_p_sorted_id (s : list (K * A)) :
  StronglySorted (le_pair ltb) s -> isort_p ltb s = s.
Proof.
  intros Hs.
  apply (@sorted_unique _ _ ltb (ko_irrefl order) (ko_total order));
    [apply (@isort_p_sorted _ _ ltb (ko_irrefl order) (ko_trans order)
              (ko_total order)) | exact Hs |].
  intros k. apply (@isort_p_filter _ _ ltb (ko_irrefl order) (ko_total order)).
Qed.

Lemma arrange_idempotent (reverse : bool) (dl : list (K * A)) :
  arrange reverse (arrange reverse dl) = arrange reverse dl.
Proof.
  pose proof (@isort_p_sorted A K ltb (ko_irrefl order) (ko_trans order)
                (ko_total order)) as Hs.
  unfold arrange. destruct reverse.
  - rewrite rev_involutive. now rewrite isort_p_sorted_id.
  - now apply isort_p_sorted_id.
Qed.

(** Sorting what is sorted changes nothing. *)
Lemma sorted_idempotent (reverse : bool) (l out : list A) :
  sorted lt key reverse l = Ok out -> sorted lt key reverse out = Ok out.
Proof.
  intros H. apply (sorted_inv order) in H. destruct H as [dl [Hdl ->]].
  assert (Hk : Forall (fun p => key (snd p) = Ok (fst p)) (arrange reverse dl)).
  { eapply Permutation_Forall; [apply arrange_perm |].
    eapply decorated_key, Hdl. }
  rewrite (sorted_decorated order reverse _ (mapM_decorate_snd key Hk)).
  now rewrite arrange_idempotent.
Qed.

(** Without ties, the descending result is the ascending one reversed. *)
Lemma sorted_reverse_distinct (l : list A) :
  (forall x, In x l -> is_ok (key x)) ->
  ForallOrdPairs (fun x y => same x y = false) l ->
  exists out,
    sorted lt key false l = Ok out /\ sorted lt key true l = Ok (rev out).
Proof.
  intros Hk Hd. destruct (decorate_is_ok key l Hk) as [dl Hdl].
  exists (map snd (isort_p ltb dl)).
  rewrite (sorted_decorated order false _ Hdl),
          (sorted_decorated order true _ Hdl).
  split; [reflexivity |]. unfold arrange. rewrite map_rev. do 3 f_equal.
  apply (@sorted_unique _ _ ltb (ko_irrefl order) (ko_total order));
    try apply (@isort_p_sorted _ _ ltb (ko_irrefl order) (ko_trans order)
                 (ko_total order)).
  intros k.
  rewrite !(@isort_p_filter _ _ ltb (ko_irrefl order) (ko_total order)).
  rewrite filter_rev. apply rev_short.
  pose proof (filter_has_key_short order k Hd) as Hlen.
  rewrite <- (decorated_snd _ _ Hdl) in Hlen.
  rewrite (@has_key_decorated A K ltb key k dl (decorated_key _ _ Hdl)) in Hlen.
  now rewrite length_map in Hlen.
Qed.

(** The first key that is not computed stops the sort. *)
Lemma sorted_first_error (reverse : bool) (l1 l2 : list A) (x : A) (e : exn) :
  (forall y, In y l1 -> is_ok (key y)) -> key x = Raise e ->
  sorted lt key reverse (l1 ++ x :: l2) = Raise e.
Proof.
  intros H Hx. unfold sorted. rewrite (@mapM_first_error _ _ _ l1 l2 x e).
  - reflexivity.
  - intros y Hy. destruct (H y Hy) as [k Hk]. exists (k, y).
    unfold decorate. now rewrite Hk.
  - unfold decorate. now rewrite Hx.
Qed.

End SortedMore.

(** ** [sort_files] under any method, and its errors *)

Lemma sort_files_any_perm (fs : filesystem) (files out : list string)
  (sort_method : string) :
  sort_files fs files sort_method = Ok out -> Permutation files out.
Proof.
  unfold sort_files.
  destruct (String.eqb sort_method "Filename");
    [apply (sorted_perm name_order) |].
  destruct (String.eqb sort_method "Date (Newest First)");
    [apply (sorted_perm (num_order (getmtime fs))) |].
  destruct (String.eqb sort_method "Date (Oldest First)");
    [apply (sorted_perm (num_order (getmtime fs))) |].
  destruct (String.eqb sort_method "FileSize");
    [apply (sorted_perm (num_order (getsize fs))) |].
  intros H. inversion H. reflexivity.
Qed.

Lemma sort_files_nil (fs : filesystem) (sort_method : string) :
  sort_files fs [] sort_method = Ok [].
Proof.
  unfold sort_files.
  repeat match goal with
         | |- context [String.eqb ?a ?b] => destruct (String.eqb a b)
         end; reflexivity.
Qed.

Lemma sort_files_first_error (fs : filesystem) (m : sort_mode)
  (l1 l2 : list string) (x : string) (e : exn) :
  (forall y, In y l1 -> is_ok (mode_key fs m y)) ->
  mode_key fs m x = Raise e ->
  sort_files fs (l1 ++ x :: l2) (mode_name m) = Raise e.
Proof.
  destruct (mode_has_view fs m) as (K & lt & ltb & key & good & inj & V).
  intros H Hx. rewrite (mv_sort V). apply sorted_first_error.
  - intros y Hy. apply (view_key_ok V). auto.
  - rewrite (mv_key V) in Hx. destruct (key x) as [k | e']; simpl in Hx.
    + discriminate.
    + congruence.
Qed.

(** Either every element has its value, or there is a first one that
    raises. *)
Lemma mapM_cases {A B : Type} (f : A -> result B) (l : list A) :
  (forall x, In x l -> is_ok (f x))
  \/ exists l1 x l2 e,
       l = (l1 ++ x :: l2)%list
       /\ (forall y, In y l1 -> is_ok (f y)) /\ f x = Raise e.
Proof.
  induction l as [| a l IH].
  - left. intros x [].
  - destruct (f a) as [b | e] eqn:Ha.
    + destruct IH as [IH | (l1 & x & l2 & e & -> & H1 & Hx)].
      * left. intros x [<- | Hx]; [now exists b | auto].
      * right. exists (a :: l1), x, l2, e. split; [reflexivity |].
        split; [| exact Hx].
        intros y [<- | Hy]; [now exists b | auto].
    + right. exists [], a, l, e. split; [reflexivity |].
      split; [intros y [] | exact Ha].
Qed.

(** A method is one of the four that sort, or leaves the files as they
    are. *)
Lemma sort_by_cases (fs : filesystem) (sort_method : string) :
  (exists m, sort_method = mode_name m)
  \/ (forall files, sort_files fs files sort_method = Ok files).
Proof.
  destruct (String.eqb_spec sort_method "Filename") as [-> | H1];
    [left; now exists Filename |].
  destruct (String.eqb_spec sort_method "Date (Newest First)") as [-> | H2];
    [left; now exists NewestFirst |].
  destruct (String.eqb_spec sort_method "Date (Oldest First)") as [-> | H3];
    [left; now exists OldestFirst |].
  destruct (String.eqb_spec sort_method "FileSize") as [-> | H4];
    [left; now exists FileSize |].
  right. intros files. unfold sort_files.
  apply String.eqb_neq in H1, H2, H3, H4. now rewrite H1, H2, H3, H4.
Qed.

(** An error of [sort_files] is the error of the first file, in the
    order given, whose key is not computed. *)
Lemma sort_files_error (fs : filesystem) (m : sort_mode)
  (files : list string) (e : exn) :
  sort_files fs files (mode_name m) = Raise e ->
  exists l1 x l2,
    files = (l1 ++ x :: l2)%list
    /\ (forall y, In y l1 -> is_ok (mode_key fs m y))
    /\ mode_key fs m x = Raise e.
Proof.
  intros Hs.
  destruct (mapM_cases (mode_key fs m) files)
    as [Hall | (l1 & x & l2 & e' & E & H1 & Hx)].
  - destruct (sort_files_is_ok fs m files Hall) as [out Ho]. congruence.
  - exists l1, x, l2. split; [exact E |]. split; [exact H1 |].
    subst files. rewrite (sort_files_first_error fs m l1 l2 x H1 Hx) in Hs.
    congruence.
Qed.

(** * The claims *)

(** ** C1: the index is clamped *)

(** C1.  When the sorted candidate list [files] is not empty, the index
    [load_image] selects is [max(0, min(file_number, file_count - 1))]:
    it lies in [0, file_count), it is [file_count - 1] for every
    [file_number >= file_count] and [0] for every negative [file_number].
    The file at that index is the one the call goes on with, whatever
    [file_number] is: the call raises what opening that file raises, and
    when the file decodes it returns, with that file as [filepath]. *)
Theorem C1_selected_index (fs : filesystem) (directory : string)
  (file_number : Z) (sort_by : string) (cands files : list string) :
  collect fs directory = Ok cands ->
  sort_files fs cands sort_by = Ok files ->
  0 < Z.of_nat (List.length files) ->
  let count := Z.of_nat (List.length files) in
  let index := clamp_index file_number count in
  index = Z.max 0 (Z.min file_number (count - 1))
  /\ 0 <= index < count
  /\ (count <= file_number -> index = count - 1)
  /\ (file_number < 0 -> index = 0)
  /\ exists path,
       nth_error files (Z.to_nat index) = Some path
       /\ getitem files index = Ok path
       /\ (count <= file_number ->
           nth_error files (Z.to_nat (count - 1)) = Some path)
       /\ (file_number < 0 -> nth_error files 0 = Some path)
       /\ (forall e, image_open fs path = Raise e ->
             load_image fs directory file_number sort_by = Raise e)
       /\ (forall im, image_open fs path = Ok im ->
             exists out,
               load_image fs directory file_number sort_by = Ok out
               /\ filepath out = path /\ file_count out = count).
Proof.
  intros Hc Hs Hlen count index. subst count index.
  pose proof (clamp_index_range file_number Hlen) as Hr.
  assert (Hhigh : Z.of_nat (List.length files) <= file_number ->
                  clamp_index file_number (Z.of_nat (List.length files))
                  = Z.of_nat (List.length files) - 1)
    by (unfold clamp_index; lia).
  assert (Hlow : file_number < 0 ->
                 clamp_index file_number (Z.of_nat (List.length files)) = 0)
    by (unfold clamp_index; lia).
  split; [reflexivity |]. split; [exact Hr |].
  split; [exact Hhigh |]. split; [exact Hlow |].
  destruct (getitem_ok files Hr) as [path [Hnth Hget]].
  exists path. split; [exact Hnth |]. split; [exact Hget |].
  split; [intros H; now rewrite <- (Hhigh H) |].
  split; [intros H; now rewrite (Hlow H) in Hnth |].
  destruct (load_image_selected fs directory file_number sort_by Hc Hs Hnth)
    as [Hraise Hret].
  split; [exact Hraise |].
  intros im Him. destruct (Hret im Him) as (m & _ & Hout).
  eexists. split; [exact Hout |]. split; reflexivity.
Qed.

Lemma C1_selected_index_witness :
  collect fs_demo "A;B" = Ok ["A/a.png"; "A/c.JPG"; "B/b.jpg"]
  /\ sort_files fs_demo ["A/a.png"; "A/c.JPG"; "B/b.jpg"] "Filename"
     = Ok ["A/a.png"; "B/b.jpg"; "A/c.JPG"]
  /\ clamp_index 7 3 = 2
  /\ exists out,
       load_image fs_demo "A;B" 7 "Filename" = Ok out
       /\ filepath out = "A/c.JPG" /\ file_count out = 3.
Proof.
  split; [reflexivity |]. split; [reflexivity |]. split; [reflexivity |].
  destruct (@C1_selected_index fs_demo "A;B" 7 "Filename"
              ["A/a.png"; "A/c.JPG"; "B/b.jpg"]
              ["A/a.png"; "B/b.jpg"; "A/c.JPG"])
    as (_ & _ & _ & _ & path & Hnth & _ & _ & _ & _ & Hret);
    [reflexivity | reflexivity | simpl; lia |].
  vm_compute in Hnth. injection Hnth as <-.
  destruct (Hret im_plain) as (out & Hout & Hpath & Hcount); [reflexivity |].
  exists out. split; [exact Hout |]. split; [exact Hpath | exact Hcount].
Defined.

(** ** C3: the failures of [load_image] *)

(** C3, as stated, fails: with three candidates, none of which decodes,
    the call raises the decoder's error, not "file not found". *)
Lemma C3_undecodable_candidate_raises :
  collect fs_undecodable "A;B" = Ok ["A/a.png"; "A/c.JPG"; "B/b.jpg"]
  /\ load_image fs_undecodable "A;B" 0 "Filename"
     = Raise (UnidentifiedImageError "cannot identify image file").
Proof. split; reflexivity. Qed.

(** C3, amended.  Every call of [load_image] ends in one of these ways,
    and the way is fixed by the listings, the sort keys and the one file
    that is selected:
    - a listing raises, and the call raises that error;
    - the listings are read and give no candidate, and the call raises
      "file not found";
    - there are candidates and the sort raises: the method is one of the
      four, the error is that of the sort key of a candidate, and the
      call raises it;
    - there are candidates and they are sorted: the file at the clamped
      index, a candidate, is opened and no other; the call raises what
      opening it raises, and returns when it decodes. *)
Theorem C3_outcomes (fs : filesystem) (directory : string)
  (file_number : Z) (sort_by : string) :
  let call := load_image fs directory file_number sort_by in
  (exists e, collect fs directory = Raise e /\ call = Raise e)
  \/ (collect fs directory = Ok []
      /\ call = Raise (FileNotFoundError no_files_message))
  \/ (exists cands,
        collect fs directory = Ok cands /\ cands <> []
        /\ ((exists e m x,
               sort_by = mode_name m
               /\ In x cands /\ mode_key fs m x = Raise e
               /\ sort_files fs cands sort_by = Raise e
               /\ call = Raise e)
            \/ (exists files p,
                  sort_files fs cands sort_by = Ok files
                  /\ nth_error files
                       (Z.to_nat (clamp_index file_number
                                    (Z.of_nat (List.length files))))
                     = Some p
                  /\ In p cands
                  /\ ((exists e, image_open fs p = Raise e /\ call = Raise e)
                      \/ (exists im out,
                            image_open fs p = Ok im
                            /\ call = Ok out
                            /\ filepath out = p
                            /\ file_count out
                               = Z.of_nat (List.length cands)))))).
Proof.
  intros call. subst call.
  destruct (collect fs directory) as [cands | e] eqn:Hc.
  2: { left. exists e. split; [reflexivity |].
       unfold load_image. now rewrite Hc. }
  right. destruct cands as [| c cands'].
  { left. split; [reflexivity |].
    apply load_image_no_files; [exact Hc | apply sort_files_nil]. }
  right. exists (c :: cands'). split; [reflexivity |]. split; [discriminate |].
  destruct (sort_files fs (c :: cands') sort_by) as [files | e] eqn:Hs.
  - right.
    pose proof (sort_files_any_perm _ _ _ Hs) as Hp.
    assert (Hlen : 0 < Z.of_nat (List.length files)).
    { rewrite <- (Permutation_length Hp). simpl. lia. }
    destruct (getitem_ok files (clamp_index_range file_number Hlen))
      as [p [Hnth _]].
    exists files, p. split; [reflexivity |]. split; [exact Hnth |].
    split.
    { eapply Permutation_in; [apply Permutation_sym, Hp |].
      eapply nth_error_In, Hnth. }
    destruct (load_image_selected fs directory file_number sort_by Hc Hs Hnth)
      as [Hraise Hret].
    destruct (image_open fs p) as [im | e] eqn:Hi.
    + right. destruct (Hret im eq_refl) as (m & _ & Hout).
      exists im. eexists. split; [reflexivity |]. split; [exact Hout |].
      split; [reflexivity |]. cbn [file_count].
      now rewrite (Permutation_length Hp).
    + left. exists e. split; [reflexivity |]. now apply Hraise.
  - left. destruct (sort_by_cases fs sort_by) as [[m ->] | Hid].
    + destruct (sort_files_error fs m _ Hs) as (l1 & x & l2 & E & _ & Hx).
      exists e, m, x. split; [reflexivity |].
      split; [rewrite E; apply in_elt |]. split; [exact Hx |].
      split; [reflexivity |].
      unfold load_image. rewrite Hc. simpl. now rewrite Hs.
    + rewrite Hid in Hs. discriminate.
Qed.

(** On a snapshot where one candidate does not decode, a call that
    selects another candidate returns. *)
Lemma C3_outcomes_witness :
  image_open fs_one_bad "A/c.JPG"
  = Raise (UnidentifiedImageError "cannot identify image file")
  /\ exists out,
       load_image fs_one_bad "A;B" 1 "Filename" = Ok out
       /\ filepath out = "B/b.jpg" /\ file_count out = 3.
Proof.
  split; [reflexivity |].
  destruct (C3_outcomes fs_one_bad "A;B" 1 "Filename")
    as [(e & Hc & _)
       | [(Hc & _)
         | (cands & Hc & _
            & [(e & m & x & _ & _ & _ & Hs & _)
              | (files & p & Hs & Hnth & _
                 & [(e & Hi & _) | (im & out & _ & Hout & Hp & Hn)])])]].
  - vm_compute in Hc. discriminate Hc.
  - vm_compute in Hc. discriminate Hc.
  - vm_compute in Hc. injection Hc as <-.
    vm_compute in Hs. discriminate Hs.
  - vm_compute in Hc. injection Hc as <-.
    vm_compute in Hs. injection Hs as <-.
    vm_compute in Hnth. injection Hnth as <-.
    vm_compute in Hi. discriminate Hi.
  - vm_compute in Hc. injection Hc as <-.
    vm_compute in Hs. injection Hs as <-.
    vm_compute in Hnth. injection Hnth as <-.
    exists out. split; [exact Hout |]. split; [exact Hp | exact Hn].
Defined.

(** ** C10: what a normal return carries *)

(** C10, as stated, fails on the extension: the entry named .png passes
    the extension test and is returned, and its [filename_no_ext] is the
    whole name, where removing the final extension leaves nothing. *)
Lemma C10_dot_name_keeps_its_extension :
  exists out,
    load_image fs_hidden "H" 0 "Filename" = Ok out
    /\ filename out = ".png"
    /\ supported (filename out) = true
    /\ filename_no_ext out = ".png"
    /\ final_extension_removed (filename out) = ""
    /\ filename_no_ext out <> final_extension_removed (filename out).
Proof.
  eexists. split; [vm_compute; reflexivity |].
  repeat split; discriminate.
Qed.

(** C10, amended.  When [load_image] returns, [file_count] is the length
    of the sorted candidate list and at least 1, [filepath] is an element
    of that list, [filename] is the last component of [filepath], and
    [filename_no_ext] is [filename] with its final extension removed,
    unless nothing but dots stands before the last dot of [filename]
    (or nothing at all): then [filename_no_ext] is [filename]. *)
Theorem C10_outputs (fs : filesystem) (directory : string) (file_number : Z)
  (sort_by : string) (out : outputs) :
  load_image fs directory file_number sort_by = Ok out ->
  exists cands files,
    collect fs directory = Ok cands
    /\ sort_files fs cands sort_by = Ok files
    /\ file_count out = Z.of_nat (List.length files)
    /\ 1 <= file_count out
    /\ In (filepath out) files
    /\ last_component (filepath out) (filename out)
    /\ let stem := final_extension_removed (filename out) in
       (~ all_char "." stem -> filename_no_ext out = stem)
       /\ (all_char "." stem -> filename_no_ext out = filename out).
Proof.
  intros H. apply load_image_inv in H.
  destruct H as (cands & files & path & im & m & Hc & Hs & Hlen & Hg & _ & _ & ->).
  exists cands, files. simpl.
  split; [exact Hc |]. split; [exact Hs |]. split; [reflexivity |].
  split; [lia |]. split; [| split].
  - destruct (getitem_ok files (clamp_index_range file_number Hlen))
      as [path' [Hnth Hget]].
    rewrite Hg in Hget. inversion Hget. subst path'.
    eapply nth_error_In, Hnth.
  - apply basename_spec.
  - assert (Hsep : no_char "/" (Path.basename path)).
    { destruct (basename_spec path) as (pre & _ & Hno & _). exact Hno. }
    rewrite (splitext_root Hsep). unfold all_char.
    rewrite <- is_dot_all_char.
    destruct (Str.forallb Path.is_dot
                (final_extension_removed (Path.basename path)));
      split; intros H; try reflexivity; (congruence || discriminate).
Qed.

Lemma C10_outputs_witness :
  exists out,
    load_image fs_demo "A;B" 7 "Filename" = Ok out
    /\ filename out = "c.JPG"
    /\ filename_no_ext out = "c"
    /\ exists cands files,
         collect fs_demo "A;B" = Ok cands
         /\ sort_files fs_demo cands "Filename" = Ok files
         /\ file_count out = Z.of_nat (List.length files)
         /\ 1 <= file_count out
         /\ In (filepath out) files
         /\ last_component (filepath out) (filename out)
         /\ let stem := final_extension_removed (filename out) in
            (~ all_char "." stem -> filename_no_ext out = stem)
            /\ (all_char "." stem -> filename_no_ext out = filename out).
Proof.
  eexists. split; [vm_compute; reflexivity |].
  split; [reflexivity |]. split; [reflexivity |].
  apply (@C10_outputs fs_demo "A;B" 7 "Filename").
  vm_compute. reflexivity.
Defined.

(** ** C6: the sort is stable *)

(** C6.  Under each of the four modes, when the key of every candidate
    is computed, [sort_files] returns a list in which the candidates of
    equal key stand in the order they were found: for every candidate,
    the files that tie with it form the same sequence before and after
    the sort, so of two files that tie the one found first stays first.
    The mode that sorts the newest first is no exception, and two files
    of one size keep their order under [FileSize]. *)
Theorem C6_stable_sort (fs : filesystem) (m : sort_mode) (files : list string) :
  (forall x, In x files -> is_ok (mode_key fs m x)) ->
  exists out,
    sort_files fs files (mode_name m) = Ok out
    /\ (forall x,
          filter (same_key fs m x) out = filter (same_key fs m x) files)
    /\ (forall x y,
          same_key fs m x y = true -> before x y files -> before x y out)
    /\ (m = FileSize ->
        forall x y n,
          getsize fs x = Ok n -> getsize fs y = Ok n ->
          before x y files -> before x y out).
Proof.
  intros Hk. destruct (sort_files_is_ok fs m files Hk) as [out Hs].
  exists out. split; [exact Hs |].
  assert (Hst : forall x,
             filter (same_key fs m x) out = filter (same_key fs m x) files).
  { intros x. now apply sort_files_stable. }
  assert (Hb : forall x y,
             same_key fs m x y = true -> before x y files -> before x y out).
  { intros x y Hxy Hbef.
    apply (before_of_filter (same_key fs m x)). rewrite Hst.
    apply before_filter; [eapply same_key_left_ok; exact Hxy | exact Hxy | exact Hbef]. }
  split; [exact Hst |]. split; [exact Hb |].
  intros -> x y n Hx Hy. apply Hb.
  unfold same_key. simpl. rewrite Hx, Hy. simpl.
  unfold tie. simpl. now rewrite Z.ltb_irrefl.
Qed.

Lemma C6_stable_sort_witness :
  exists out,
    sort_files fs_demo ["A/c.JPG"; "B/b.jpg"; "A/a.png"] (mode_name FileSize)
    = Ok out
    /\ (forall x,
          filter (same_key fs_demo FileSize x) out
          = filter (same_key fs_demo FileSize x)
              ["A/c.JPG"; "B/b.jpg"; "A/a.png"])
    /\ (forall x y,
          same_key fs_demo FileSize x y = true ->
          before x y ["A/c.JPG"; "B/b.jpg"; "A/a.png"] -> before x y out)
    /\ (FileSize = FileSize ->
        forall x y n,
          getsize fs_demo x = Ok n -> getsize fs_demo y = Ok n ->
          before x y ["A/c.JPG"; "B/b.jpg"; "A/a.png"] -> before x y out).
Proof.
  apply (@C6_stable_sort fs_demo FileSize ["A/c.JPG"; "B/b.jpg"; "A/a.png"]).
  intros x Hx. simpl. destruct (String.eqb x "B/b.jpg"); eexists; reflexivity.
Defined.

(** ** C7: the order of the listings *)

(** C7, as stated, fails: a.png and c.JPG of directory [A] have one
    size; listed in one order or the other, the sort by size keeps them
    as listed, and index 0 selects a different file. *)
Lemma C7_listing_order_decides_ties :
  (forall d, Permutation (demo_names d) (if String.eqb d "A"
                                         then rev (demo_names d)
                                         else demo_names d))
  /\ (forall d, In d (parse_directories fs_demo "A;B") ->
        listdir fs_demo d = Ok (demo_names d)
        /\ listdir fs_demo_backwards d
           = Ok (if String.eqb d "A" then rev (demo_names d) else demo_names d))
  /\ (exists out1 out2,
        load_image fs_demo "A;B" 0 "FileSize" = Ok out1
        /\ load_image fs_demo_backwards "A;B" 0 "FileSize" = Ok out2
        /\ filepath out1 = "A/a.png" /\ filepath out2 = "A/c.JPG")
  /\ load_image fs_demo "A;B" 0 "FileSize"
     <> load_image fs_demo_backwards "A;B" 0 "FileSize".
Proof.
  split.
  { intros d. destruct (String.eqb d "A"); [apply Permutation_rev | reflexivity]. }
  split.
  { intros d Hd. simpl in Hd.
    destruct Hd as [<- | [<- | []]]; split; reflexivity. }
  split.
  { do 2 eexists. split; [vm_compute; reflexivity |].
    split; [vm_compute; reflexivity |]. split; reflexivity. }
  vm_compute. discriminate.
Qed.

(** C7, amended.  Take one snapshot and list every valid directory in
    another order.  If, within each directory, the keys of the matching
    entries are computed and no two of these entries tie under the mode,
    [load_image] gives the same result, whatever the order of the
    listings. *)
Theorem C7_order_of_listings (fs : filesystem)
  (ld2 : string -> result (list string)) (directory : string)
  (file_number : Z) (m : sort_mode) :
  (forall d, In d (parse_directories fs directory) ->
     exists l1 l2,
       listdir fs d = Ok l1 /\ ld2 d = Ok l2 /\ Permutation l1 l2
       /\ (forall x, In x (entries d l1) -> is_ok (mode_key fs m x))
       /\ ForallOrdPairs (fun x y => same_key fs m x y = false) (entries d l1)) ->
  load_image (with_listdir fs ld2) directory file_number (mode_name m)
  = load_image fs directory file_number (mode_name m).
Proof.
  intros H.
  set (names1 := fun d => match listdir fs d with Ok l => l | Raise _ => [] end).
  set (names2 := fun d => match ld2 d with Ok l => l | Raise _ => [] end).
  set (dirs := parse_directories fs directory) in *.
  assert (H' : forall d, In d dirs ->
             listdir fs d = Ok (names1 d) /\ ld2 d = Ok (names2 d)
             /\ Permutation (entries d (names1 d)) (entries d (names2 d))
             /\ (forall x, In x (entries d (names1 d)) -> is_ok (mode_key fs m x))
             /\ ForallOrdPairs (fun x y => same_key fs m x y = false)
                  (entries d (names1 d))).
  { intros d Hd. destruct (H d Hd) as (l1 & l2 & E1 & E2 & Hp & Hk & Hf).
    unfold names1, names2. rewrite E1, E2. repeat split; auto.
    unfold entries. now apply Permutation_map, perm_filter. }
  clear H.
  assert (C1 : collect fs directory
               = Ok (flat_map (fun d => entries d (names1 d)) dirs)).
  { apply collect_entries. intros d Hd. now destruct (H' d Hd). }
  assert (C2 : collect (with_listdir fs ld2) directory
               = Ok (flat_map (fun d => entries d (names2 d)) dirs)).
  { apply (collect_entries (with_listdir fs ld2) names2).
    intros d Hd. now destruct (H' d Hd) as (_ & E & _). }
  assert (S : sort_files fs (flat_map (fun d => entries d (names2 d)) dirs)
                (mode_name m)
              = sort_files fs (flat_map (fun d => entries d (names1 d)) dirs)
                  (mode_name m)).
  { symmetry. apply sort_files_invariant.
    - intros x Hx. apply in_flat_map in Hx. destruct Hx as (d & Hd & Hx).
      destruct (H' d Hd) as (_ & _ & _ & Hk & _). auto.
    - intros x Hx. apply in_flat_map in Hx. destruct Hx as (d & Hd & Hx).
      destruct (H' d Hd) as (_ & _ & Hp & Hk & _). apply Hk.
      eapply Permutation_in; [apply Permutation_sym, Hp | exact Hx].
    - intros x _. rewrite !filter_flat_map. apply flat_map_ext_in.
      intros d Hd. destruct (H' d Hd) as (_ & _ & Hp & _ & Hf).
      now apply same_key_filter_perm. }
  unfold load_image. rewrite C1, C2. simpl bind.
  change (sort_files (with_listdir fs ld2)) with (sort_files fs).
  rewrite S. reflexivity.
Qed.

Lemma C7_order_of_listings_witness :
  load_image (with_listdir fs_demo (listdir fs_demo_backwards)) "A;B" 0
    (mode_name Filename)
  = load_image fs_demo "A;B" 0 (mode_name Filename).
Proof.
  apply (@C7_order_of_listings fs_demo (listdir fs_demo_backwards) "A;B" 0
           Filename).
  intros d Hd. simpl in Hd. destruct Hd as [<- | [<- | []]].
  - exists ["a.png"; "notes.txt"; "c.JPG"], ["c.JPG"; "notes.txt"; "a.png"].
    split; [reflexivity |]. split; [reflexivity |].
    split; [apply (Permutation_rev ["a.png"; "notes.txt"; "c.JPG"]) |].
    split.
    + intros x Hx. vm_compute in Hx.
      destruct Hx as [<- | [<- | []]]; eexists; vm_compute; reflexivity.
    + repeat constructor.
  - exists ["b.jpg"], ["b.jpg"].
    split; [reflexivity |]. split; [reflexivity |].
    split; [reflexivity |].
    split.
    + intros x Hx. vm_compute in Hx.
      destruct Hx as [<- | []]; eexists; vm_compute; reflexivity.
    + repeat constructor.
Defined.

(** ** C9: comparing two keys *)

(** C9, as stated, fails: the comparator is not a total order on the
    names, for it is not antisymmetric.  Two names that differ in the
    case of a letter and in a leading zero have one key, and each is not
    after the other. *)
Lemma C9_two_names_one_key :
  natural_sort_key "a1.png" = Ok [KStr "a"; KInt 1; KStr ".png"]
  /\ natural_sort_key "A01.png" = Ok [KStr "a"; KInt 1; KStr ".png"]
  /\ natural_le "a1.png" "A01.png"
  /\ natural_le "A01.png" "a1.png"
  /\ "a1.png" <> "A01.png".
Proof. repeat split; try reflexivity. discriminate. Qed.

(** C9, amended.  For names whose keys are computed, a key holds a text
    at every even position and an integer at every odd one, so the
    comparison of two keys never meets an integer and a text and always
    answers; "not after" is then reflexive, total and transitive on the
    names: a total preorder. *)
Theorem C9_keys_compare (a b c : string) (ka kb kc : list key_part) :
  natural_sort_key a = Ok ka ->
  natural_sort_key b = Ok kb ->
  natural_sort_key c = Ok kc ->
  alternating true ka /\ alternating true kb
  /\ list_lt ka kb = Ok (key_ltb ka kb)
  /\ list_lt ka ka = Ok false
  /\ (list_lt kb ka = Ok false \/ list_lt ka kb = Ok false)
  /\ (list_lt kb ka = Ok false -> list_lt kc kb = Ok false ->
      list_lt kc ka = Ok false).
Proof.
  intros Ha Hb Hc.
  pose proof (natural_sort_key_alternating _ Ha) as Aa.
  pose proof (natural_sort_key_alternating _ Hb) as Ab.
  pose proof (natural_sort_key_alternating _ Hc) as Ac.
  rewrite !(list_lt_alternating true) by assumption.
  repeat split; auto.
  - now rewrite key_ltb_irrefl.
  - destruct (key_ltb kb ka) eqn:E; [right | now left].
    f_equal. apply (ltb_asym key_ltb key_ltb_irrefl key_ltb_trans). exact E.
  - intros H1 H2. injection H1 as E1. injection H2 as E2. f_equal.
    eapply nlt_trans; eauto using key_ltb_trans, key_ltb_total.
Qed.

Lemma C9_keys_compare_witness :
  alternating true [KStr "file"; KInt 1; KStr ".jpg"]
  /\ alternating true [KStr "file"; KInt 2; KStr ".jpg"]
  /\ list_lt [KStr "file"; KInt 1; KStr ".jpg"]
       [KStr "file"; KInt 2; KStr ".jpg"]
     = Ok (key_ltb [KStr "file"; KInt 1; KStr ".jpg"]
             [KStr "file"; KInt 2; KStr ".jpg"])
  /\ list_lt [KStr "file"; KInt 1; KStr ".jpg"]
       [KStr "file"; KInt 1; KStr ".jpg"] = Ok false
  /\ (list_lt [KStr "file"; KInt 2; KStr ".jpg"]
        [KStr "file"; KInt 1; KStr ".jpg"] = Ok false
      \/ list_lt [KStr "file"; KInt 1; KStr ".jpg"]
           [KStr "file"; KInt 2; KStr ".jpg"] = Ok false)
  /\ (list_lt [KStr "file"; KInt 2; KStr ".jpg"]
        [KStr "file"; KInt 1; KStr ".jpg"] = Ok false ->
      list_lt [KStr "file"; KInt 10; KStr ".jpg"]
        [KStr "file"; KInt 2; KStr ".jpg"] = Ok false ->
      list_lt [KStr "file"; KInt 10; KStr ".jpg"]
        [KStr "file"; KInt 1; KStr ".jpg"] = Ok false).
Proof.
  apply (@C9_keys_compare "file1.jpg" "file2.jpg" "file10.jpg"); reflexivity.
Defined.

(** ** C2: the natural order of the names *)

(** C2 at a name the code does not sort.  In the name made of a
    superscript two, a digit and ".png", the superscript is a run of
    its own that [\d] does not match; [isdigit] accepts it, [int]
    rejects it, and the sort by name raises [ValueError] where the claim
    has the run compared as text. *)
Theorem C2_superscript_run_raises (fs : filesystem) :
  Re.split_digits superscript_name = [String (ascii_of_N 178) ""; "1"; ".png"]
  /\ Str.isdecimal (ascii_of_N 178) = false
  /\ Str.isdigit (String (ascii_of_N 178) "") = true
  /\ natural_sort_key superscript_name
     = Raise (ValueError "invalid literal for int() with base 10")
  /\ sort_files fs [superscript_name; "file1.png"] "Filename"
     = Raise (ValueError "invalid literal for int() with base 10").
Proof. repeat split; reflexivity. Qed.

(** What the sort by name gives when it returns: a permutation of the
    candidates in natural order of their bare names. *)
Lemma sort_files_natural_order (fs : filesystem) (files : list string) :
  (forall x, In x files -> is_ok (natural_sort_key x)) ->
  exists out,
    sort_files fs files "Filename" = Ok out
    /\ Permutation files out
    /\ StronglySorted natural_le out.
Proof.
  intros Hk.
  assert (Hk' : forall x, In x files -> is_ok (mode_key fs Filename x)).
  { intros x Hx. destruct (Hk x Hx) as [k E]. exists (NameKey k).
    simpl. now rewrite E. }
  destruct (sort_files_is_ok fs Filename files Hk') as [out Hs].
  exists out. split; [exact Hs |].
  split; [exact (sort_files_perm fs Filename _ Hs) |].
  pose proof (sort_files_in_order fs Filename _ Hs) as Ho.
  eapply StronglySorted_weaken; [| exact Ho].
  intros x y _ _ (a & b & Ha & Hb & R). simpl in Ha, Hb.
  apply bind_ok in Ha. destruct Ha as (ka & Ea & Ha).
  apply bind_ok in Hb. destruct Hb as (kb & Eb & Hb).
  inversion Ha. inversion Hb. subst. simpl in R.
  unfold natural_le.
  now rewrite <- (natural_sort_key_spec _ Ea), <- (natural_sort_key_spec _ Eb).
Qed.

(** Names without superscript digits and within the limit of [int] are
    always sorted. *)
Lemma sort_files_natural_order_plain (fs : filesystem) (files : list string) :
  (forall x, In x files -> no_superscript x /\ within_limit x) ->
  exists out,
    sort_files fs files "Filename" = Ok out
    /\ Permutation files out
    /\ StronglySorted natural_le out.
Proof.
  intros H. apply sort_files_natural_order.
  intros x Hx. eexists. apply natural_sort_key_plain; now apply H.
Qed.

Example natural_order_ex (fs : filesystem) :
  sort_files fs ["file2.jpg"; "file10.jpg"; "file1.jpg"] "Filename"
  = Ok ["file1.jpg"; "file2.jpg"; "file10.jpg"].
Proof. reflexivity. Qed.

(** ** C4: the mask *)

(** C4, as stated, fails at the alpha byte 128: the mask value there is
    [1 - 128/255], in float32 16711422 * 2^-25 (0.498...), not 0.5. *)
Lemma C4_alpha_128_is_not_half :
  exists out,
    load_image fs_demo "A" 0 "Filename" = Ok out
    /\ image_open fs_demo (filepath out) = Ok im_alpha
    /\ getchannel im_alpha "A" = Ok [0; 128; 255]%N
    /\ data (mask out)
       = [F32.one; S754_finite false 16711422 (-25); F32.zero]
    /\ data (mask out) <> [F32.one; F32.half; F32.zero]
    /\ F32.eqb (S754_finite false 16711422 (-25)) F32.half = false.
Proof.
  eexists. split; [vm_compute; reflexivity |].
  repeat split; try reflexivity. vm_compute. discriminate.
Qed.

(** C4, amended.  When [load_image] returns, the selected file decoded
    to an image [im].  If [im] has a band "A", the mask has the shape
    [1, height, width] and holds, for each alpha byte [a] in row-major
    order, the float32 value of [1.0 - a / 255.0]; this is 1 for the
    byte 0 and 0 for the byte 255, and 16711422 * 2^-25 for the byte 128;
    for every byte it lies in [0, 1], within [2^-24] of [1 - a/255].
    If [im] has no band "A", the mask has the shape [1, 64, 64] and
    holds zeros. *)
Theorem C4_mask (fs : filesystem) (directory : string) (file_number : Z)
  (sort_by : string) (out : outputs) :
  load_image fs directory file_number sort_by = Ok out ->
  exists im,
    image_open fs (filepath out) = Ok im
    /\ (In "A" (getbands im) ->
        exists alpha,
          getchannel im "A" = Ok alpha
          /\ mask out
             = MkArray [1%nat; height im; width im] (map mask_value alpha))
    /\ (~ In "A" (getbands im) ->
        mask out
        = MkArray [1%nat; 64%nat; 64%nat] (repeat F32.zero (64 * 64)))
    /\ mask_value 0 = F32.one
    /\ mask_value 255 = F32.zero
    /\ mask_value 128 = S754_finite false 16711422 (-25)
    /\ (forall a, (a < 256)%N ->
        exists q, f32_value (mask_value a) = Some q
          /\ (Qabs (q - exact_mask a) <= 1 # 16777216)%Q
          /\ (0 <= q)%Q /\ (q <= 1)%Q).
Proof.
  intros H. apply load_image_inv in H.
  destruct H as (cands & files & path & im & m & _ & _ & _ & _ & Hi & Hm & ->).
  exists im. simpl. split; [exact Hi |].
  split; [| split; [| repeat split; try reflexivity; apply mask_value_close]].
  - intros HA. apply existsb_eqb_In in HA.
    destruct (make_mask_alpha im HA) as (alpha & Ha & Hmask).
    exists alpha. split; [exact Ha |].
    rewrite Hm in Hmask. inversion Hmask. reflexivity.
  - intros HA.
    assert (E : existsb (String.eqb "A") (getbands im) = false).
    { destruct (existsb (String.eqb "A") (getbands im)) eqn:E; [| reflexivity].
      apply existsb_eqb_In in E. contradiction. }
    rewrite (make_mask_plain im E) in Hm. inversion Hm. reflexivity.
Qed.

Lemma C4_mask_witness :
  exists out,
    load_image fs_demo "A;B" 0 "Filename" = Ok out
    /\ exists im,
         image_open fs_demo (filepath out) = Ok im
         /\ (In "A" (getbands im) ->
             exists alpha,
               getchannel im "A" = Ok alpha
               /\ mask out
                  = MkArray [1%nat; height im; width im] (map mask_value alpha))
         /\ (~ In "A" (getbands im) ->
             mask out
             = MkArray [1%nat; 64%nat; 64%nat] (repeat F32.zero (64 * 64)))
         /\ mask_value 0 = F32.one
         /\ mask_value 255 = F32.zero
         /\ mask_value 128 = S754_finite false 16711422 (-25)
         /\ (forall a, (a < 256)%N ->
             exists q, f32_value (mask_value a) = Some q
               /\ (Qabs (q - exact_mask a) <= 1 # 16777216)%Q
               /\ (0 <= q)%Q /\ (q <= 1)%Q).
Proof.
  eexists. split; [vm_compute; reflexivity |].
  apply (@C4_mask fs_demo "A;B" 0 "Filename").
  vm_compute. reflexivity.
Defined.

(** ** C5: the directories and the candidates *)

(** C5.  The string is cut at its semicolons; each piece is trimmed of
    the whitespace around it; the valid directories are the trimmed
    pieces that name a directory, in the order of the string and as
    often as written.  When the listing of each valid directory is read,
    the candidates before the sort are the matching entries of the first
    valid directory, then those of the second, and so on.  For [A] with
    a.png and [B] with b.jpg, "A;B" gives A/a.png then B/b.jpg. *)
Theorem C5_directories_and_candidates (fs : filesystem) (directory : string)
  (names : string -> list string) :
  (forall d, In d (parse_directories fs directory) ->
             listdir fs d = Ok (names d)) ->
  let pieces := Str.split ";" directory in
  String.concat ";" pieces = directory
  /\ Forall (no_char ";") pieces
  /\ Forall (fun p => stripped p (Str.strip p)) pieces
  /\ parse_directories fs directory
     = filter (isdir fs) (map Str.strip pieces)
  /\ collect fs directory
     = Ok (flat_map (fun d => entries d (names d))
             (parse_directories fs directory))
  /\ collect fs_ab "A;B" = Ok ["A/a.png"; "B/b.jpg"].
Proof.
  intros H pieces. subst pieces.
  split; [apply split_concat |].
  split; [apply split_no_sep |].
  split; [apply Forall_forall; intros p _; apply strip_spec |].
  split; [apply parse_directories_filter |].
  split; [now apply collect_entries | reflexivity].
Qed.

Lemma C5_directories_and_candidates_witness :
  String.concat ";" (Str.split ";" " A ;nowhere; B;A") = " A ;nowhere; B;A"
  /\ Forall (no_char ";") (Str.split ";" " A ;nowhere; B;A")
  /\ Forall (fun p => stripped p (Str.strip p))
       (Str.split ";" " A ;nowhere; B;A")
  /\ parse_directories fs_ab " A ;nowhere; B;A"
     = filter (isdir fs_ab) (map Str.strip (Str.split ";" " A ;nowhere; B;A"))
  /\ collect fs_ab " A ;nowhere; B;A"
     = Ok (flat_map (fun d => entries d (ab_names d))
             (parse_directories fs_ab " A ;nowhere; B;A"))
  /\ collect fs_ab "A;B" = Ok ["A/a.png"; "B/b.jpg"].
Proof.
  apply (@C5_directories_and_candidates fs_ab " A ;nowhere; B;A" ab_names).
  intros d Hd. vm_compute in Hd.
  destruct Hd as [<- | [<- | [<- | []]]]; reflexivity.
Defined.

(** ** C8: what a candidate is *)

(** C8 at an entry that is not a file.  Directory [A] holds the
    directory sub.png; its name ends with a supported extension, so it
    is collected as a candidate, and the call fails on opening it. *)
Theorem C8_directory_entry_is_collected :
  isdir fs_subdir "A/sub.png" = true
  /\ listdir fs_subdir "A" = Ok ["sub.png"]
  /\ collect fs_subdir "A" = Ok ["A/sub.png"]
  /\ load_image fs_subdir "A" 0 "Filename" = Raise (OSError "Is a directory").
Proof. repeat split; reflexivity. Qed.

(** * Further properties of the code *)

(** ** [sort_files] under any method *)

Lemma ForallOrdPairs_weaken {A : Type} (R S : A -> A -> Prop) (l : list A) :
  (forall x y, R x y -> S x y) -> ForallOrdPairs R l -> ForallOrdPairs S l.
Proof.
  intros H. induction 1 as [| x l Hx _ IH]; constructor; [| exact IH].
  eapply Forall_impl; [| exact Hx]. intros y. apply H.
Qed.

(** X1.  Whatever the sort method, known or not, a normal return counts
    the candidates that were collected and selects one of them: sorting
    neither drops nor adds a file. *)
Theorem X1_count_is_number_of_candidates (fs : filesystem)
  (directory : string) (file_number : Z) (sort_by : string) (out : outputs) :
  load_image fs directory file_number sort_by = Ok out ->
  exists cands,
    collect fs directory = Ok cands
    /\ file_count out = Z.of_nat (List.length cands)
    /\ In (filepath out) cands.
Proof.
  intros H. apply load_image_inv in H.
  destruct H as (cands & files & path & im & m & Hc & Hs & Hlen & Hg & _ & _ & ->).
  pose proof (sort_files_any_perm _ _ _ Hs) as Hp.
  exists cands. simpl. split; [exact Hc |].
  split; [now rewrite (Permutation_length Hp) |].
  destruct (getitem_ok files (clamp_index_range file_number Hlen))
    as [path' [Hnth Hget]].
  rewrite Hg in Hget. inversion Hget. subst path'.
  eapply Permutation_in; [apply Permutation_sym, Hp |].
  eapply nth_error_In, Hnth.
Qed.

Lemma X1_count_is_number_of_candidates_witness :
  exists out,
    load_image fs_demo "A;B" 1 "Date (Newest First)" = Ok out
    /\ exists cands,
         collect fs_demo "A;B" = Ok cands
         /\ file_count out = Z.of_nat (List.length cands)
         /\ In (filepath out) cands.
Proof.
  eexists. split; [vm_compute; reflexivity |].
  apply (@X1_count_is_number_of_candidates fs_demo "A;B" 1
           "Date (Newest First)").
  vm_compute. reflexivity.
Defined.

(** X2.  When the modification time of every file is read, both date
    methods return a permutation of the files: by time descending for
    the newest first, ascending for the oldest first. *)
Theorem X2_date_order (fs : filesystem) (files : list string) :
  (forall x, In x files -> is_ok (getmtime fs x)) ->
  exists newest oldest,
    sort_files fs files "Date (Newest First)" = Ok newest
    /\ sort_files fs files "Date (Oldest First)" = Ok oldest
    /\ Permutation files newest
    /\ Permutation files oldest
    /\ StronglySorted
         (fun x y => exists a b,
              getmtime fs x = Ok a /\ getmtime fs y = Ok b /\ b <= a)
         newest
    /\ StronglySorted
         (fun x y => exists a b,
              getmtime fs x = Ok a /\ getmtime fs y = Ok b /\ a <= b)
         oldest.
Proof.
  intros Hk.
  change (sort_files fs files "Date (Newest First)")
    with (sorted num_lt (getmtime fs) true files).
  change (sort_files fs files "Date (Oldest First)")
    with (sorted num_lt (getmtime fs) false files).
  pose proof (num_order (getmtime fs)) as O.
  destruct (sorted_is_ok O true files Hk) as [newest Hn].
  destruct (sorted_is_ok O false files Hk) as [oldest Ho].
  exists newest, oldest. split; [exact Hn |]. split; [exact Ho |].
  split; [exact (sorted_perm O _ _ Hn) |].
  split; [exact (sorted_perm O _ _ Ho) |].
  split.
  - eapply StronglySorted_weaken; [| exact (sorted_sorted O _ _ Hn)].
    intros x y _ _ (a & b & Ha & Hb & R). exists a, b.
    repeat split; auto. now apply Z.ltb_ge in R.
  - eapply StronglySorted_weaken; [| exact (sorted_sorted O _ _ Ho)].
    intros x y _ _ (a & b & Ha & Hb & R). exists a, b.
    repeat split; auto. now apply Z.ltb_ge in R.
Qed.

Lemma X2_date_order_witness :
  exists newest oldest,
    sort_files fs_demo ["A/a.png"; "A/c.JPG"; "B/b.jpg"] "Date (Newest First)"
    = Ok newest
    /\ sort_files fs_demo ["A/a.png"; "A/c.JPG"; "B/b.jpg"]
         "Date (Oldest First)" = Ok oldest
    /\ Permutation ["A/a.png"; "A/c.JPG"; "B/b.jpg"] newest
    /\ Permutation ["A/a.png"; "A/c.JPG"; "B/b.jpg"] oldest
    /\ StronglySorted
         (fun x y => exists a b,
              getmtime fs_demo x = Ok a /\ getmtime fs_demo y = Ok b /\ b <= a)
         newest
    /\ StronglySorted
         (fun x y => exists a b,
              getmtime fs_demo x = Ok a /\ getmtime fs_demo y = Ok b /\ a <= b)
         oldest.
Proof.
  apply (@X2_date_order fs_demo ["A/a.png"; "A/c.JPG"; "B/b.jpg"]).
  intros x Hx. simpl.
  destruct (String.eqb x "A/a.png"); [eexists; reflexivity |].
  destruct (String.eqb x "A/c.JPG"); eexists; reflexivity.
Defined.

(** X3.  When the size of every file is read, the sort by size returns
    a permutation of the files by size ascending. *)
Theorem X3_size_order (fs : filesystem) (files : list string) :
  (forall x, In x files -> is_ok (getsize fs x)) ->
  exists out,
    sort_files fs files "FileSize" = Ok out
    /\ Permutation files out
    /\ StronglySorted
         (fun x y => exists a b,
              getsize fs x = Ok a /\ getsize fs y = Ok b /\ a <= b)
         out.
Proof.
  intros Hk.
  change (sort_files fs files "FileSize")
    with (sorted num_lt (getsize fs) false files).
  pose proof (num_order (getsize fs)) as O.
  destruct (sorted_is_ok O false files Hk) as [out Ho].
  exists out. split; [exact Ho |].
  split; [exact (sorted_perm O _ _ Ho) |].
  eapply StronglySorted_weaken; [| exact (sorted_sorted O _ _ Ho)].
  intros x y _ _ (a & b & Ha & Hb & R). exists a, b.
  repeat split; auto. now apply Z.ltb_ge in R.
Qed.

Lemma X3_size_order_witness :
  exists out,
    sort_files fs_demo ["B/b.jpg"; "A/a.png"; "A/c.JPG"] "FileSize" = Ok out
    /\ Permutation ["B/b.jpg"; "A/a.png"; "A/c.JPG"] out
    /\ StronglySorted
         (fun x y => exists a b,
              getsize fs_demo x = Ok a /\ getsize fs_demo y = Ok b /\ a <= b)
         out.
Proof.
  apply (@X3_size_order fs_demo ["B/b.jpg"; "A/a.png"; "A/c.JPG"]).
  intros x Hx. simpl. destruct (String.eqb x "B/b.jpg"); eexists; reflexivity.
Defined.

(** X4.  When the modification times are read and no two files have the
    same one, the newest-first result is the oldest-first result
    reversed. *)
Theorem X4_newest_is_oldest_reversed (fs : filesystem) (files : list string) :
  (forall x, In x files -> is_ok (getmtime fs x)) ->
  ForallOrdPairs (fun x y => getmtime fs x <> getmtime fs y) files ->
  exists oldest,
    sort_files fs files "Date (Oldest First)" = Ok oldest
    /\ sort_files fs files "Date (Newest First)" = Ok (rev oldest).
Proof.
  intros Hk Hd.
  change (sort_files fs files "Date (Newest First)")
    with (sorted num_lt (getmtime fs) true files).
  change (sort_files fs files "Date (Oldest First)")
    with (sorted num_lt (getmtime fs) false files).
  pose proof (num_order (getmtime fs)) as O.
  apply (sorted_reverse_distinct O Hk).
  eapply ForallOrdPairs_weaken; [| exact Hd].
  intros x y Hxy. unfold same, has_key.
  destruct (getmtime fs x) as [a | e] eqn:Ex; [| reflexivity].
  destruct (getmtime fs y) as [b | e] eqn:Ey; [| reflexivity].
  destruct (tie Z.ltb a b) eqn:T; [| reflexivity].
  apply (tie_eq Z.ltb (ko_irrefl O) (ko_total O)) in T. congruence.
Qed.

Lemma X4_newest_is_oldest_reversed_witness :
  exists oldest,
    sort_files fs_demo ["A/a.png"; "A/c.JPG"; "B/b.jpg"] "Date (Oldest First)"
    = Ok oldest
    /\ sort_files fs_demo ["A/a.png"; "A/c.JPG"; "B/b.jpg"]
         "Date (Newest First)" = Ok (rev oldest).
Proof.
  apply (@X4_newest_is_oldest_reversed fs_demo
           ["A/a.png"; "A/c.JPG"; "B/b.jpg"]).
  - intros x Hx. simpl.
    destruct (String.eqb x "A/a.png"); [eexists; reflexivity |].
    destruct (String.eqb x "A/c.JPG"); eexists; reflexivity.
  - repeat constructor; simpl; discriminate.
Defined.

(** X5.  Sorting is idempotent under every method: the list
    [sort_files] returns is returned unchanged when sorted again. *)
Theorem X5_sort_idempotent (fs : filesystem) (files out : list string)
  (sort_method : string) :
  sort_files fs files sort_method = Ok out ->
  sort_files fs out sort_method = Ok out.
Proof.
  unfold sort_files.
  destruct (String.eqb sort_method "Filename");
    [apply (sorted_idempotent name_order) |].
  destruct (String.eqb sort_method "Date (Newest First)");
    [apply (sorted_idempotent (num_order (getmtime fs))) |].
  destruct (String.eqb sort_method "Date (Oldest First)");
    [apply (sorted_idempotent (num_order (getmtime fs))) |].
  destruct (String.eqb sort_method "FileSize");
    [apply (sorted_idempotent (num_order (getsize fs))) |].
  intros H. inversion H. reflexivity.
Qed.

Lemma X5_sort_idempotent_witness :
  sort_files fs_demo ["A/a.png"; "B/b.jpg"; "A/c.JPG"] "Filename"
  = Ok ["A/a.png"; "B/b.jpg"; "A/c.JPG"].
Proof.
  apply (@X5_sort_idempotent fs_demo ["A/c.JPG"; "B/b.jpg"; "A/a.png"]).
  reflexivity.
Defined.

(** X6.  Each of the four entries of the [sort_by] choice makes
    [sort_files] sort by the key of that entry: it raises the error of a
    file whose key is not computed, or returns a permutation of the
    files in the order of that key (descending for the newest first,
    ascending otherwise).  Under any other name it sorts nothing and
    computes no key: the files come back as given.  The default is one
    of the four entries. *)
Theorem X6_sort_by_dispatch (fs : filesystem) (files : list string)
  (sort_method : string) :
  (In sort_method sort_by_choices ->
   exists m,
     sort_method = mode_name m
     /\ ((exists e x,
            In x files /\ mode_key fs m x = Raise e
            /\ sort_files fs files sort_method = Raise e)
         \/ (exists out,
               sort_files fs files sort_method = Ok out
               /\ Permutation files out
               /\ StronglySorted (in_order fs m) out)))
  /\ (~ In sort_method sort_by_choices ->
      sort_files fs files sort_method = Ok files)
  /\ In sort_by_default sort_by_choices.
Proof.
  split; [| split].
  - intros Hin.
    assert (Hm : exists m, sort_method = mode_name m).
    { simpl in Hin. destruct Hin as [<- | [<- | [<- | [<- | []]]]];
        [exists Filename | exists NewestFirst | exists OldestFirst
        | exists FileSize]; reflexivity. }
    destruct Hm as [m ->]. exists m. split; [reflexivity |].
    destruct (sort_files fs files (mode_name m)) as [out | e] eqn:Hs.
    + right. exists out. split; [reflexivity |].
      split; [now apply (sort_files_perm fs m) |].
      now apply (sort_files_in_order fs m files).
    + left. destruct (sort_files_error fs m _ Hs) as (l1 & x & l2 & E & _ & Hx).
      exists e, x. split; [rewrite E; apply in_elt |].
      split; [exact Hx | reflexivity].
  - intros H. destruct (sort_by_cases fs sort_method) as [[m ->] | Hid];
      [| apply Hid].
    exfalso. apply H. destruct m; simpl; tauto.
  - simpl. tauto.
Qed.

(** The four entries on one snapshot: each sorts by its own key. *)
Lemma X6_sort_by_dispatch_witness :
  sort_files fs_demo ["A/a.png"; "A/c.JPG"; "B/b.jpg"] "Filename"
  = Ok ["A/a.png"; "B/b.jpg"; "A/c.JPG"]
  /\ sort_files fs_demo ["A/a.png"; "A/c.JPG"; "B/b.jpg"] "Date (Newest First)"
     = Ok ["A/a.png"; "B/b.jpg"; "A/c.JPG"]
  /\ sort_files fs_demo ["A/a.png"; "A/c.JPG"; "B/b.jpg"] "Date (Oldest First)"
     = Ok ["A/c.JPG"; "B/b.jpg"; "A/a.png"]
  /\ sort_files fs_demo ["A/a.png"; "A/c.JPG"; "B/b.jpg"] "FileSize"
     = Ok ["A/a.png"; "A/c.JPG"; "B/b.jpg"]
  /\ sort_files fs_no_stat ["B/b.jpg"; "A/a.png"] "Date"
     = Ok ["B/b.jpg"; "A/a.png"]
  /\ exists out,
       sort_files fs_demo ["A/a.png"; "A/c.JPG"; "B/b.jpg"] "Date (Oldest First)"
       = Ok out
       /\ StronglySorted (in_order fs_demo OldestFirst) out.
Proof.
  split; [reflexivity |]. split; [reflexivity |]. split; [reflexivity |].
  split; [reflexivity |].
  destruct (X6_sort_by_dispatch fs_no_stat ["B/b.jpg"; "A/a.png"] "Date")
    as (_ & Hother & _).
  split.
  { apply Hother. simpl. intros [H | [H | [H | [H | []]]]]; discriminate. }
  destruct (X6_sort_by_dispatch fs_demo ["A/a.png"; "A/c.JPG"; "B/b.jpg"]
              "Date (Oldest First)") as (Hsorts & _ & _).
  destruct Hsorts as (m & Hm & [(e & x & _ & _ & Hs) | (out & Hs & _ & Hord)]).
  - simpl. tauto.
  - vm_compute in Hs. discriminate Hs.
  - destruct m; try discriminate Hm. exists out. split; [exact Hs | exact Hord].
Defined.

(** ** More on the keys of the names *)

Ltac each_char c := destruct c as [[] [] [] [] [] [] [] []]; reflexivity.

Lemma lower_char_decimal (c : ascii) :
  Str.isdecimal (Str.lower_char c) = Str.isdecimal c.
Proof. each_char c. Qed.

Lemma lower_char_digit (c : ascii) :
  Str.isdigit_char (Str.lower_char c) = Str.isdigit_char c.
Proof. each_char c. Qed.

Lemma lower_char_idem (c : ascii) :
  Str.lower_char (Str.lower_char c) = Str.lower_char c.
Proof. each_char c. Qed.

Lemma lower_char_sep (c : ascii) :
  Ascii.eqb (Str.lower_char c) "/" = Ascii.eqb c "/".
Proof. each_char c. Qed.

Lemma lower_char_dot (c : ascii) :
  Ascii.eqb (Str.lower_char c) "." = Ascii.eqb c ".".
Proof. each_char c. Qed.

Lemma decimal_not_sep (c : ascii) :
  Str.isdecimal c = true -> negb (Ascii.eqb c "/") = true.
Proof.
  destruct c as [[] [] [] [] [] [] [] []]; vm_compute; intros H;
    (reflexivity || discriminate H).
Qed.

Lemma decimal_not_superscript (c : ascii) :
  Str.isdecimal c = true -> negb (superscript c) = true.
Proof.
  destruct c as [[] [] [] [] [] [] [] []]; vm_compute; intros H;
    (reflexivity || discriminate H).
Qed.

Lemma decimal_lower_char (c : ascii) :
  Str.isdecimal c = true -> Str.lower_char c = c.
Proof.
  destruct c as [[] [] [] [] [] [] [] []]; vm_compute; intros H;
    (reflexivity || discriminate H).
Qed.

Lemma forallb_impl (p q : ascii -> bool) (s : string) :
  (forall c, p c = true -> q c = true) ->
  Str.forallb p s = true -> Str.forallb q s = true.
Proof.
  intros H. induction s as [| c s IH]; simpl; [reflexivity |].
  intros Hs. apply andb_true_iff in Hs. destruct Hs as [Hc Hs].
  now rewrite (H c Hc), IH.
Qed.

Lemma forallb_lower (p : ascii -> bool) (s : string) :
  (forall c, p (Str.lower_char c) = p c) ->
  Str.forallb p (Str.lower s) = Str.forallb p s.
Proof.
  intros H. induction s as [| c s IH]; simpl; [reflexivity |].
  now rewrite H, IH.
Qed.

Lemma lower_idem (s : string) : Str.lower (Str.lower s) = Str.lower s.
Proof.
  induction s as [| c s IH]; simpl; [reflexivity |].
  now rewrite lower_char_idem, IH.
Qed.

Lemma lower_decimal_run (s : string) :
  Str.forallb Str.isdecimal s = true -> Str.lower s = s.
Proof.
  induction s as [| c s IH]; simpl; [reflexivity |].
  intros H. apply andb_true_iff in H. destruct H as [Hc Hs].
  now rewrite (decimal_lower_char c Hc), IH.
Qed.

Lemma lower_is_empty (s : string) :
  Str.is_empty (Str.lower s) = Str.is_empty s.
Proof. now destruct s. Qed.

Lemma split_digits_lower (s : string) :
  Re.split_digits (Str.lower s) = map Str.lower (Re.split_digits s).
Proof.
  induction s as [| c s IH]; [reflexivity |].
  cbn [Str.lower Re.split_digits]. rewrite IH, lower_char_decimal.
  destruct (Str.isdecimal c).
  - destruct (Re.split_digits s) as [| [| c' t'] [| d more]]; reflexivity.
  - destruct (Re.split_digits s) as [| t more]; reflexivity.
Qed.

Lemma rfind_sep_lower (s : string) :
  Path.rfind "/" (Str.lower s) = Path.rfind "/" s.
Proof.
  induction s as [| c s IH]; [reflexivity |].
  cbn [Str.lower Path.rfind]. now rewrite IH, lower_char_sep.
Qed.

Lemma drop_lower (n : nat) (s : string) :
  Path.drop n (Str.lower s) = Str.lower (Path.drop n s).
Proof.
  revert s. induction n as [| n IH]; intros [| c s]; simpl; auto.
Qed.

Lemma basename_lower (s : string) :
  Path.basename (Str.lower s) = Str.lower (Path.basename s).
Proof. unfold Path.basename. now rewrite rfind_sep_lower, drop_lower. Qed.

Lemma key_of_text_lower (t : string) :
  key_of_text (Str.lower t) = key_of_text t.
Proof.
  unfold key_of_text, Str.isdigit, Str.int.
  rewrite lower_is_empty, (forallb_lower _ t lower_char_digit),
    (forallb_lower _ t lower_char_decimal), lower_idem.
  destruct (negb (Str.is_empty t) && Str.forallb Str.isdigit_char t);
    [| reflexivity].
  destruct (Str.forallb Str.isdecimal t) eqn:E.
  - now rewrite (lower_decimal_run t E).
  - now rewrite andb_false_r.
Qed.

Lemma mapM_map {A B C : Type} (f : B -> result C) (g : A -> B) (l : list A) :
  mapM f (map g l) = mapM (fun x => f (g x)) l.
Proof.
  induction l as [| x l IH]; simpl; [reflexivity | now rewrite IH].
Qed.

Lemma mapM_ext {A B : Type} (f g : A -> result B) (l : list A) :
  (forall x, f x = g x) -> mapM f l = mapM g l.
Proof.
  intros H. induction l as [| x l IH]; simpl; [reflexivity |].
  now rewrite H, IH.
Qed.

Lemma natural_sort_key_lower (s : string) :
  natural_sort_key (Str.lower s) = natural_sort_key s.
Proof.
  unfold natural_sort_key.
  rewrite basename_lower, split_digits_lower, mapM_map.
  apply mapM_ext, key_of_text_lower.
Qed.

(** X7.  The key of a name does not see the case of its letters: two
    paths with the same lower-cased form have the same key, or raise
    the same error. *)
Theorem X7_key_ignores_case (s1 s2 : string) :
  Str.lower s1 = Str.lower s2 -> natural_sort_key s1 = natural_sort_key s2.
Proof.
  intros H.
  now rewrite <- (natural_sort_key_lower s1), H, natural_sort_key_lower.
Qed.

Lemma X7_key_ignores_case_witness :
  natural_sort_key "Dir/IMG10.PNG" = natural_sort_key "dir/img10.png".
Proof. apply X7_key_ignores_case. reflexivity. Defined.

(** *** The directory does not count *)

Lemma rfind_app (c : ascii) (pre post : string) :
  no_char c post ->
  Path.rfind c (pre ++ String c post) = Z.of_nat (String.length pre).
Proof.
  intros Hp. induction pre as [| a pre IH].
  - cbn [append Path.rfind String.length]. rewrite (no_char_rfind Hp).
    simpl. now rewrite Ascii.eqb_refl.
  - cbn [append Path.rfind String.length]. rewrite IH.
    destruct (Z.leb_spec 0 (Z.of_nat (String.length pre))); lia.
Qed.

Lemma basename_no_sep (name : string) :
  no_char "/" name -> Path.basename name = name.
Proof.
  intros H. unfold Path.basename. now rewrite (no_char_rfind H).
Qed.

Lemma basename_after_sep (q name : string) :
  no_char "/" name -> Path.basename (q ++ String "/" name) = name.
Proof.
  intros H. unfold Path.basename. rewrite (rfind_app q H).
  replace (Z.to_nat (Z.of_nat (String.length q) + 1))
    with (String.length (q ++ "/")) by (rewrite length_append; simpl; lia).
  replace (q ++ String "/" name)%string with ((q ++ "/") ++ name)%string
    by (now rewrite append_assoc).
  apply drop_app.
Qed.

(** X9.  For an entry name without a slash, as [os.listdir] gives them,
    the last component of the joined path is the name again, whatever
    the directory: [filename] is the entry as listed, and the key of the
    sort by name is the key of the entry alone. *)
Theorem X9_directory_does_not_count (dir_path name : string) :
  no_char "/" name ->
  Path.basename (Path.join dir_path name) = name
  /\ natural_sort_key (Path.join dir_path name) = natural_sort_key name.
Proof.
  intros H.
  assert (B : Path.basename (Path.join dir_path name) = name).
  { unfold Path.join.
    assert (S : Path.startswith_sep name = false).
    { destruct name as [| c name]; [reflexivity |].
      unfold no_char in H. simpl in H. apply andb_true_iff in H.
      destruct H as [H _]. simpl. now apply negb_true_iff in H. }
    rewrite S.
    destruct (Str.is_empty dir_path) eqn:E.
    - destruct dir_path; [| discriminate]. simpl. now apply basename_no_sep.
    - simpl. destruct (Str.endswith dir_path "/") eqn:F.
      + apply endswith_spec in F. destruct F as [q ->].
        rewrite append_assoc. simpl. now apply basename_after_sep.
      + now apply basename_after_sep. }
  split; [exact B |].
  unfold natural_sort_key. now rewrite B, (basename_no_sep H).
Qed.

Lemma X9_directory_does_not_count_witness :
  Path.basename (Path.join "/data/in" "file10.jpg") = "file10.jpg"
  /\ natural_sort_key (Path.join "/data/in" "file10.jpg")
     = natural_sort_key "file10.jpg".
Proof. apply X9_directory_does_not_count. reflexivity. Defined.

(** *** Digit runs compare as numbers *)

Lemma split_digits_not_nil (s : string) : Re.split_digits s <> [].
Proof.
  pose proof (split_digits_shape s) as H.
  destruct H; discriminate.
Qed.

Lemma split_digits_text (t rest : string) :
  no_decimal t ->
  Re.split_digits (t ++ rest)
  = match Re.split_digits rest with
    | p :: more => (t ++ p)%string :: more
    | [] => [t]
    end.
Proof.
  unfold no_decimal. induction t as [| c t IH]; intros H.
  - simpl. pose proof (split_digits_not_nil rest).
    now destruct (Re.split_digits rest).
  - simpl in H. apply andb_true_iff in H. destruct H as [Hc Ht].
    apply negb_true_iff in Hc.
    cbn [append Re.split_digits]. rewrite Hc, (IH Ht).
    now destruct (Re.split_digits rest).
Qed.

Lemma split_digits_run (d rest : string) :
  decimal_run d -> starts_nondecimal rest ->
  Re.split_digits (d ++ rest) = EmptyString :: d :: Re.split_digits rest.
Proof.
  intros [Hne Hd] Hrest. induction d as [| c d IH]; [contradiction |].
  simpl in Hd. apply andb_true_iff in Hd. destruct Hd as [Hc Hd].
  cbn [append Re.split_digits]. rewrite Hc.
  destruct d as [| c' d'].
  - simpl. destruct rest as [| a rest]; [reflexivity |].
    simpl in Hrest. cbn [Re.split_digits]. rewrite Hrest.
    now destruct (Re.split_digits rest).
  - rewrite IH; [reflexivity | discriminate | exact Hd].
Qed.

(** The pieces of a name made of a text, a digit run and a rest. *)
Lemma split_digits_numbered (p d s : string) :
  no_decimal p -> decimal_run d -> starts_nondecimal s ->
  Re.split_digits (p ++ d ++ s) = p :: d :: Re.split_digits s.
Proof.
  intros Hp Hd Hs.
  rewrite (@split_digits_text p (d ++ s) Hp), (@split_digits_run d s Hd Hs).
  now rewrite append_empty_r.
Qed.

(** X8.  Two names that differ in one digit run only, after a common
    text without digits and before a common rest, compare as the numbers
    of the two runs, leading zeros not counting.  The runs have at most
    the 4300 digits [int] takes, the common text is no digit string for
    [isdigit], and the rest has a key of its own. *)
Theorem X8_digit_runs_compare_as_numbers (p d1 d2 s : string) :
  no_decimal p -> no_char "/" p -> Str.isdigit p = false ->
  decimal_run d1 -> within_limit d1 ->
  decimal_run d2 -> within_limit d2 ->
  starts_nondecimal s -> no_char "/" s -> is_ok (natural_sort_key s) ->
  exists k1 k2,
    natural_sort_key (p ++ d1 ++ s) = Ok k1
    /\ natural_sort_key (p ++ d2 ++ s) = Ok k2
    /\ list_lt k1 k2 = Ok (Str.digits_value 0 d1 <? Str.digits_value 0 d2).
Proof.
  intros Hp Hps Hpd Hd1 Hl1 Hd2 Hl2 Hs Hss [ks Hks].
  unfold natural_sort_key in Hks. rewrite (@basename_no_sep s Hss) in Hks.
  assert (Hkey : forall d, decimal_run d -> within_limit d ->
            natural_sort_key (p ++ d ++ s)
            = Ok (KStr (Str.lower p) :: KInt (Str.digits_value 0 d) :: ks)).
  { intros d Hd Hl.
    assert (Hsep : no_char "/" (p ++ d ++ s)).
    { unfold no_char in *. rewrite !forallb_append, Hps, Hss.
      now rewrite (forallb_impl _ _ d decimal_not_sep (proj2 Hd)). }
    unfold natural_sort_key.
    rewrite (@basename_no_sep _ Hsep), (@split_digits_numbered p d s Hp Hd Hs).
    cbn [mapM]. unfold key_of_text at 1. rewrite Hpd. cbn [bind].
    rewrite (key_of_text_run Hd Hl). cbn [bind]. now rewrite Hks. }
  exists (KStr (Str.lower p) :: KInt (Str.digits_value 0 d1) :: ks),
         (KStr (Str.lower p) :: KInt (Str.digits_value 0 d2) :: ks).
  split; [exact (Hkey d1 Hd1 Hl1) |]. split; [exact (Hkey d2 Hd2 Hl2) |].
  rewrite (list_lt_alternating true);
    try (eapply natural_sort_key_alternating; apply Hkey; assumption).
  f_equal. cbn [key_ltb part_eq part_ltb]. rewrite String.eqb_refl.
  destruct (Z.eqb_spec (Str.digits_value 0 d1) (Str.digits_value 0 d2)) as [E | E].
  - rewrite key_ltb_irrefl, E. symmetry. apply Z.ltb_irrefl.
  - reflexivity.
Qed.

Lemma X8_digit_runs_compare_as_numbers_witness :
  exists k1 k2,
    natural_sort_key ("file" ++ "2" ++ ".jpg") = Ok k1
    /\ natural_sort_key ("file" ++ "010" ++ ".jpg") = Ok k2
    /\ list_lt k1 k2
       = Ok (Str.digits_value 0 "2" <? Str.digits_value 0 "010").
Proof.
  apply X8_digit_runs_compare_as_numbers; try reflexivity.
  - split; [discriminate | reflexivity].
  - unfold within_limit. simpl. unfold Str.int_max_str_digits. lia.
  - split; [discriminate | reflexivity].
  - unfold within_limit. simpl. unfold Str.int_max_str_digits. lia.
  - eexists. reflexivity.
Defined.

(** ** The extension of a supported name *)

Lemma lower_app_inv (name a b : string) :
  Str.lower name = (a ++ b)%string ->
  exists n1 n2, name = (n1 ++ n2)%string /\ Str.lower n1 = a /\ Str.lower n2 = b.
Proof.
  revert name. induction a as [| c a IH]; intros name H.
  - exists "", name. auto.
  - destruct name as [| c0 name]; [discriminate |].
    simpl in H. inversion H as [[Hc Hrest]].
    destruct (IH _ Hrest) as (n1 & n2 & -> & H1 & H2).
    exists (String c0 n1), n2. simpl. rewrite H1. auto.
Qed.

Lemma valid_extension_shape (e : string) :
  In e valid_extensions -> exists e', e = String "." e' /\ no_char "." e'.
Proof.
  simpl. intros [<- | [<- | [<- | [<- | [<- | [<- | []]]]]]];
    eexists; split; reflexivity.
Qed.

Lemma lower_dot_inv (n2 e' : string) :
  Str.lower n2 = String "." e' -> no_char "." e' ->
  exists n2', n2 = String "." n2' /\ no_char "." n2'.
Proof.
  destruct n2 as [| c0 n2']; [discriminate |].
  simpl. intros H He. injection H as Hc Hl.
  assert (E : Ascii.eqb c0 "." = true).
  { rewrite <- lower_char_dot, Hc. reflexivity. }
  apply Ascii.eqb_eq in E. subst c0. exists n2'. split; [reflexivity |].
  unfold no_char in *.
  rewrite <- (forallb_lower (fun a => negb (Ascii.eqb a ".")) n2').
  - now rewrite Hl.
  - intros c. now rewrite lower_char_dot.
Qed.

(** X10.  For an entry that passes the extension test and holds no
    slash, [os.path.splitext] cuts the name at its last dot: the part cut
    off is, lower-cased, one of the supported extensions, and
    [filename_no_ext] is what stands before it.  The exception is a name
    made of dots followed by a supported extension, such as ".png": it is
    a candidate, has no extension for [splitext], and is its own
    [filename_no_ext]. *)
Theorem X10_supported_extension_is_removed (name : string) :
  supported name = true -> no_char "/" name ->
  let root := fst (Path.splitext name) in
  let ext := snd (Path.splitext name) in
  name = (root ++ ext)%string
  /\ ((In (Str.lower ext) valid_extensions /\ ~ all_char "." root)
      \/ (ext = EmptyString /\ root = name
          /\ exists dots e, name = (dots ++ e)%string /\ all_char "." dots
               /\ In (Str.lower e) valid_extensions)).
Proof.
  intros Hsup Hsep root ext. subst root ext.
  unfold supported, Str.endswith_any in Hsup.
  apply existsb_exists in Hsup. destruct Hsup as (e & He & Hends).
  apply endswith_spec in Hends. destruct Hends as [stem Hstem].
  destruct (@lower_app_inv name stem e Hstem) as (n1 & n2 & Hname & _ & Hn2).
  destruct (@valid_extension_shape e He) as (e' & -> & He').
  destruct (@lower_dot_inv n2 e' Hn2 He') as (n2' & -> & Hn2').
  unfold Path.splitext. rewrite (no_char_rfind Hsep).
  assert (Hdot : Path.rfind "." name = Z.of_nat (String.length n1)).
  { rewrite Hname. now apply rfind_app. }
  rewrite Hdot.
  destruct (Z.ltb_spec (-1) (Z.of_nat (String.length n1))) as [_ | Hneg]; [| lia].
  simpl Z.add. rewrite Z.sub_0_r, Nat2Z.id. simpl Path.drop.
  assert (Ht : Path.take (String.length n1) name = n1).
  { rewrite Hname. apply take_app. }
  assert (Hd : Path.drop (String.length n1) name = String "." n2').
  { rewrite Hname. apply drop_app. }
  rewrite !Ht, ?Hd.
  destruct (Str.forallb Path.is_dot n1) eqn:Hdots; simpl.
  - split; [now rewrite append_empty_r |]. right.
    split; [reflexivity |]. split; [reflexivity |].
    exists n1, (String "." n2'). split; [exact Hname |].
    split; [unfold all_char; now rewrite <- is_dot_all_char |].
    change (In (Str.lower (String "." n2')) valid_extensions).
    now rewrite Hn2.
  - split; [exact Hname |]. left. split.
    { change (In (Str.lower (String "." n2')) valid_extensions).
      now rewrite Hn2. }
    unfold all_char. rewrite <- is_dot_all_char. congruence.
Qed.

Lemma X10_supported_extension_is_removed_witness :
  "holiday.2024.JPG"
  = (fst (Path.splitext "holiday.2024.JPG")
     ++ snd (Path.splitext "holiday.2024.JPG"))%string
  /\ ((In (Str.lower (snd (Path.splitext "holiday.2024.JPG"))) valid_extensions
       /\ ~ all_char "." (fst (Path.splitext "holiday.2024.JPG")))
      \/ (snd (Path.splitext "holiday.2024.JPG") = EmptyString
          /\ fst (Path.splitext "holiday.2024.JPG") = "holiday.2024.JPG"
          /\ exists dots e,
               "holiday.2024.JPG" = (dots ++ e)%string /\ all_char "." dots
               /\ In (Str.lower e) valid_extensions)).
Proof.
  apply (@X10_supported_extension_is_removed "holiday.2024.JPG"); reflexivity.
Defined.

(** ** More on the scan of the directories *)

Lemma split_app (sep : ascii) (s1 s2 : string) :
  Str.split sep (s1 ++ String sep s2)
  = (Str.split sep s1 ++ Str.split sep s2)%list.
Proof.
  induction s1 as [| c s1 IH]; cbn [append Str.split].
  - now rewrite Ascii.eqb_refl.
  - rewrite IH. destruct (Ascii.eqb c sep); [reflexivity |].
    pose proof (split_not_nil sep s1) as Hne.
    destruct (Str.split sep s1); [contradiction | reflexivity].
Qed.

Lemma parse_directories_app (fs : filesystem) (s1 s2 : string) :
  parse_directories fs (s1 ++ String ";" s2)
  = (parse_directories fs s1 ++ parse_directories fs s2)%list.
Proof.
  unfold parse_directories. now rewrite split_app, filter_app, map_app.
Qed.

Lemma scan_directories_from (fs : filesystem)
  (directories image_files : list string) :
  scan_directories fs directories image_files
  = (r <- scan_directories fs directories [] ;; Ok (image_files ++ r)%list).
Proof.
  revert image_files.
  induction directories as [| d ds IH]; intros acc; simpl.
  - now rewrite app_nil_r.
  - destruct (listdir fs d) as [names | e]; simpl; [| reflexivity].
    rewrite (IH (scan_names d names acc)), (IH (scan_names d names [])).
    destruct (scan_directories fs ds []) as [r | e]; simpl; [| reflexivity].
    rewrite !scan_names_entries. simpl. now rewrite app_assoc.
Qed.

Lemma scan_directories_app (fs : filesystem)
  (ds1 ds2 image_files : list string) :
  scan_directories fs (ds1 ++ ds2) image_files
  = (r <- scan_directories fs ds1 image_files ;; scan_directories fs ds2 r).
Proof.
  revert image_files. induction ds1 as [| d ds1 IH]; intros acc; simpl.
  - reflexivity.
  - destruct (listdir fs d) as [names | e]; simpl; [apply IH | reflexivity].
Qed.

(** X11.  The candidates of two directory strings joined by a semicolon
    are the candidates of the first followed by those of the second; an
    error of a listing of the first comes before one of the second. *)
Theorem X11_collect_of_joined_strings (fs : filesystem) (s1 s2 : string) :
  collect fs (s1 ++ String ";" s2)
  = (c1 <- collect fs s1 ;; c2 <- collect fs s2 ;; Ok (c1 ++ c2)%list).
Proof.
  unfold collect. rewrite parse_directories_app, scan_directories_app.
  destruct (scan_directories fs (parse_directories fs s1) []) as [c1 | e];
    simpl; [| reflexivity].
  apply scan_directories_from.
Qed.

Lemma scan_directories_error (fs : filesystem) (ds1 ds2 acc : list string)
  (d : string) (e : exn) :
  (forall d', In d' ds1 -> is_ok (listdir fs d')) ->
  listdir fs d = Raise e ->
  scan_directories fs (ds1 ++ d :: ds2) acc = Raise e.
Proof.
  revert acc. induction ds1 as [| d1 ds1 IH]; intros acc H He; simpl.
  - now rewrite He.
  - destruct (H d1 (or_introl eq_refl)) as [names Hn]. rewrite Hn. simpl.
    apply IH; [| exact He]. intros d' Hd'. apply H. now right.
Qed.

(** X12.  A listing that fails for a valid directory fails the call,
    with the error of the first such directory, whatever the index and
    the sort method: no candidate of the other directories is returned. *)
Theorem X12_listing_error_reaches_the_caller (fs : filesystem)
  (directory : string) (file_number : Z) (sort_by : string)
  (ds1 ds2 : list string) (d : string) (e : exn) :
  parse_directories fs directory = (ds1 ++ d :: ds2)%list ->
  (forall d', In d' ds1 -> is_ok (listdir fs d')) ->
  listdir fs d = Raise e ->
  load_image fs directory file_number sort_by = Raise e.
Proof.
  intros Hp H He. unfold load_image, collect. rewrite Hp.
  now rewrite (scan_directories_error fs ds1 ds2 [] d H He).
Qed.

Lemma X12_listing_error_reaches_the_caller_witness :
  load_image fs_unlisted "A;B" 0 "Filename"
  = Raise (OSError "Permission denied").
Proof.
  apply (@X12_listing_error_reaches_the_caller fs_unlisted "A;B" 0 "Filename"
           ["A"] [] "B").
  - reflexivity.
  - intros d' [<- | []]. eexists. reflexivity.
  - reflexivity.
Defined.

(** X13.  When every valid directory is listed and none of the entries
    passes the extension test (in particular when no entry of the string
    names a directory), the call raises "file not found", whatever the
    index and the sort method, known or not. *)
Theorem X13_no_supported_entry (fs : filesystem) (directory : string)
  (file_number : Z) (sort_by : string) :
  (forall d, In d (parse_directories fs directory) ->
     exists names, listdir fs d = Ok names
       /\ forall name, In name names -> supported name = false) ->
  load_image fs directory file_number sort_by
  = Raise (FileNotFoundError no_files_message).
Proof.
  intros H.
  set (names := fun d => match listdir fs d with Ok l => l | Raise _ => [] end).
  assert (Hc' : collect fs directory = Ok []).
  { rewrite (collect_entries fs names directory).
    - f_equal.
      induction (parse_directories fs directory) as [| d ds IH]; [reflexivity |].
      simpl. rewrite IH by (intros; apply H; now right).
      destruct (H d (or_introl eq_refl)) as (l & E & Hl).
      unfold names at 1. rewrite E. unfold entries.
      now rewrite (filter_none supported l Hl).
    - intros d Hd. destruct (H d Hd) as (l & E & _). unfold names. now rewrite E. }
  unfold load_image. rewrite Hc'. simpl. now rewrite sort_files_nil.
Qed.

Lemma X13_no_supported_entry_witness :
  load_image fs_texts "T; nowhere" 3 "FileSize"
  = Raise (FileNotFoundError no_files_message).
Proof.
  apply (@X13_no_supported_entry fs_texts "T; nowhere" 3 "FileSize").
  intros d Hd. vm_compute in Hd. destruct Hd as [<- | []].
  exists ["notes.txt"; "readme.md"]. split; [reflexivity |].
  intros name [<- | [<- | []]]; reflexivity.
Defined.

(** ** More on [load_image] *)

(** The index enters the call through its clamped value only. *)
Lemma load_image_same_index (fs : filesystem) (directory : string)
  (n n' : Z) (sort_by : string) (out : outputs) :
  load_image fs directory n sort_by = Ok out ->
  clamp_index n (file_count out) = clamp_index n' (file_count out) ->
  load_image fs directory n' sort_by = Ok out.
Proof.
  intros H E. apply load_image_inv in H.
  destruct H as (cands & files & path & im & m & Hc & Hs & Hlen & Hg & Hi & Hm & ->).
  simpl in E. unfold load_image. rewrite Hc. simpl. rewrite Hs. simpl.
  destruct (Z.eqb_spec (Z.of_nat (List.length files)) 0) as [Z0 | _]; [lia |].
  rewrite <- E, Hg. simpl. rewrite Hi. simpl. rewrite Hm. reflexivity.
Qed.

(** X14.  Past the last file the index changes nothing: a call that
    returns with an index of [file_count - 1] or more returns the same
    outputs for every other such index, and likewise for all indices
    of 0 or less. *)
Theorem X14_index_beyond_the_ends (fs : filesystem) (directory : string)
  (n n' : Z) (sort_by : string) (out : outputs) :
  load_image fs directory n sort_by = Ok out ->
  (file_count out - 1 <= n /\ file_count out - 1 <= n')
  \/ (n <= 0 /\ n' <= 0) ->
  load_image fs directory n' sort_by = Ok out.
Proof.
  intros H Hn. apply (@load_image_same_index fs directory n n' sort_by out H).
  pose proof (X := H). apply load_image_inv in X.
  destruct X as (cands & files & path & im & m & _ & _ & Hlen & _ & _ & _ & ->).
  simpl in *. unfold clamp_index. lia.
Qed.

Lemma X14_index_beyond_the_ends_witness :
  exists out,
    load_image fs_demo "A;B" 2 "Filename" = Ok out
    /\ load_image fs_demo "A;B" 1000 "Filename" = Ok out.
Proof.
  eexists. split; [vm_compute; reflexivity |].
  apply (@X14_index_beyond_the_ends fs_demo "A;B" 2 1000 "Filename").
  - vm_compute. reflexivity.
  - left. simpl. lia.
Defined.

Lemma in_all_bytes (a : N) : (a < 256)%N -> In a all_bytes.
Proof.
  intros Ha. unfold all_bytes. apply in_map_iff. exists (N.to_nat a).
  split; [apply N2Nat.id | apply in_seq; lia].
Qed.

Lemma pixel_close_bytes : List.forallb pixel_close all_bytes = true.
Proof. vm_compute. reflexivity. Qed.

Lemma pixel_table_is_ordered : pixel_table_ordered = true.
Proof. vm_compute. reflexivity. Qed.

Lemma in_pixel_table (a : N) :
  (a < 256)%N -> In (a, pixel_value a) pixel_table.
Proof.
  intros Ha. unfold pixel_table. apply in_map_iff. exists a.
  split; [reflexivity | now apply in_all_bytes].
Qed.


(** X15.  The image tensor of a normal return has the shape
    [1, height, width, 3] and holds, for each byte [b] of the RGB
    conversion of the selected image, the float32 value of [b / 255.0].
    That value is 0 for the byte 0 and 1 for the byte 255, lies in
    [0, 1] within [2^-25] of [b/255], and grows strictly with the byte:
    no two byte values give one sample. *)
Theorem X15_image_tensor (fs : filesystem) (directory : string)
  (file_number : Z) (sort_by : string) (out : outputs) :
  load_image fs directory file_number sort_by = Ok out ->
  exists im,
    image_open fs (filepath out) = Ok im
    /\ image out
       = MkArray [1%nat; height im; width im; 3%nat] (map pixel_value (rgb im))
    /\ pixel_value 0 = F32.zero
    /\ pixel_value 255 = F32.one
    /\ (forall b, (b < 256)%N ->
        exists q, f32_value (pixel_value b) = Some q
          /\ (Qabs (q - (Z.of_N b # 255)) <= 1 # 33554432)%Q
          /\ (0 <= q)%Q /\ (q <= 1)%Q)
    /\ (forall a b, (a < 256)%N -> (b < 256)%N ->
        SFltb (pixel_value a) (pixel_value b) = (a <? b)%N).
Proof.
  intros H. apply load_image_inv in H.
  destruct H as (cands & files & path & im & m & _ & _ & _ & _ & Hi & _ & ->).
  exists im. simpl. split; [exact Hi |].
  split.
  { unfold image_tensor, unsqueeze0, from_numpy, array_div, astype_float32,
      np_array_rgb. simpl. now rewrite map_map. }
  split; [reflexivity |]. split; [reflexivity |]. split.
  - intros b Hb.
    pose proof (proj1 (forallb_forall _ _) pixel_close_bytes b
                  (in_all_bytes Hb)) as C.
    unfold pixel_close in C.
    destruct (f32_value (pixel_value b)) as [q |]; [| discriminate].
    apply andb_true_iff in C. destruct C as [C C3].
    apply andb_true_iff in C. destruct C as [C1 C2].
    exists q. rewrite <- !Qle_bool_iff. auto.
  - intros a b Ha Hb.
    pose proof pixel_table_is_ordered as C.
    unfold pixel_table_ordered in C. cbv zeta in C.
    pose proof (proj1 (forallb_forall _ _) C _ (in_pixel_table Ha)) as C'.
    cbv beta in C'.
    pose proof (proj1 (forallb_forall _ _) C' _ (in_pixel_table Hb)) as C''.
    apply Bool.eqb_prop. exact C''.
Qed.

Lemma X15_image_tensor_witness :
  exists out,
    load_image fs_demo "A;B" 1 "Filename" = Ok out
    /\ exists im,
         image_open fs_demo (filepath out) = Ok im
         /\ image out
            = MkArray [1%nat; height im; width im; 3%nat]
                (map pixel_value (rgb im))
         /\ pixel_value 0 = F32.zero
         /\ pixel_value 255 = F32.one
         /\ (forall b, (b < 256)%N ->
             exists q, f32_value (pixel_value b) = Some q
               /\ (Qabs (q - (Z.of_N b # 255)) <= 1 # 33554432)%Q
               /\ (0 <= q)%Q /\ (q <= 1)%Q)
         /\ (forall a b, (a < 256)%N -> (b < 256)%N ->
             SFltb (pixel_value a) (pixel_value b) = (a <? b)%N).
Proof.
  eexists. split; [vm_compute; reflexivity |].
  apply (@X15_image_tensor fs_demo "A;B" 1 "Filename").
  vm_compute. reflexivity.
Defined.

(** X16.  The sort key is computed for every candidate before any file
    is selected: if the key of one candidate is not computed (its
    modification time or size cannot be read, or its name has no key),
    the call raises the error of the first such candidate in discovery
    order, whichever index is asked for. *)
Theorem X16_key_error_reaches_the_caller (fs : filesystem)
  (directory : string) (file_number : Z) (m : sort_mode)
  (l1 l2 : list string) (x : string) (e : exn) :
  collect fs directory = Ok (l1 ++ x :: l2)%list ->
  (forall y, In y l1 -> is_ok (mode_key fs m y)) ->
  mode_key fs m x = Raise e ->
  load_image fs directory file_number (mode_name m) = Raise e.
Proof.
  intros Hc H Hx. unfold load_image. rewrite Hc. simpl.
  now rewrite (sort_files_first_error fs m l1 l2 x H Hx).
Qed.

Lemma X16_key_error_reaches_the_caller_witness :
  load_image fs_no_stat "A;B" 2 (mode_name OldestFirst)
  = Raise (OSError "Permission denied").
Proof.
  apply (@X16_key_error_reaches_the_caller fs_no_stat "A;B" 2 OldestFirst
           [] ["A/c.JPG"; "B/b.jpg"] "A/a.png").
  - reflexivity.
  - intros y [].
  - reflexivity.
Defined.

(** X17.  Only the selected file is opened.  With the candidates sorted
    to [files] and [p] the file at the clamped index, the call raises
    what opening [p] raises, and when [p] decodes it returns with [p] as
    [filepath], whether the other candidates decode or not. *)
Theorem X17_only_the_selected_file_is_opened (fs : filesystem)
  (directory : string) (file_number : Z) (sort_by : string)
  (cands files : list string) (p : string) :
  collect fs directory = Ok cands ->
  sort_files fs cands sort_by = Ok files ->
  nth_error files
    (Z.to_nat (clamp_index file_number (Z.of_nat (List.length files))))
  = Some p ->
  (forall e, image_open fs p = Raise e ->
             load_image fs directory file_number sort_by = Raise e)
  /\ (forall im, image_open fs p = Ok im ->
        exists out,
          load_image fs directory file_number sort_by = Ok out
          /\ filepath out = p
          /\ image out = image_tensor im
          /\ file_count out = Z.of_nat (List.length cands)).
Proof.
  intros Hc Hs Hnth.
  assert (Hlen : 0 < Z.of_nat (List.length files)).
  { destruct files; [| simpl; lia].
    destruct (Z.to_nat (clamp_index file_number (Z.of_nat (List.length (@nil string)))));
      discriminate. }
  destruct (getitem_ok files (clamp_index_range file_number Hlen))
    as [p' [Hnth' Hget]].
  rewrite Hnth in Hnth'. inversion Hnth'. subst p'.
  pose proof (Permutation_length (sort_files_any_perm _ _ _ Hs)) as Hpl.
  split.
  - intros e He. unfold load_image. rewrite Hc. simpl. rewrite Hs. simpl.
    destruct (Z.eqb_spec (Z.of_nat (List.length files)) 0) as [Z0 | _]; [lia |].
    rewrite Hget. simpl. now rewrite He.
  - intros im Him. destruct (make_mask_is_ok im) as [m Hm].
    eexists. split; [| split; [| split]].
    + unfold load_image. rewrite Hc. simpl. rewrite Hs. simpl.
      destruct (Z.eqb_spec (Z.of_nat (List.length files)) 0) as [Z0 | _]; [lia |].
      rewrite Hget. simpl. rewrite Him. simpl. rewrite Hm. simpl. reflexivity.
    + reflexivity.
    + reflexivity.
    + simpl. now rewrite Hpl.
Qed.

Lemma X17_only_the_selected_file_is_opened_witness :
  (forall e, image_open fs_one_bad "A/a.png" = Raise e ->
             load_image fs_one_bad "A;B" 0 "Filename" = Raise e)
  /\ (forall im, image_open fs_one_bad "A/a.png" = Ok im ->
        exists out,
          load_image fs_one_bad "A;B" 0 "Filename" = Ok out
          /\ filepath out = "A/a.png"
          /\ image out = image_tensor im
          /\ file_count out
             = Z.of_nat (List.length ["A/a.png"; "A/c.JPG"; "B/b.jpg"])).
Proof.
  apply (@X17_only_the_selected_file_is_opened fs_one_bad "A;B" 0 "Filename"
           ["A/a.png"; "A/c.JPG"; "B/b.jpg"] ["A/a.png"; "B/b.jpg"; "A/c.JPG"]);
    reflexivity.
Defined.

(** ** The directories that are listed *)

Lemma lstrip_fixed (q : string) : first_not_space q -> Str.lstrip q = q.
Proof. destruct q as [| c q]; simpl; [reflexivity | now intros ->]. Qed.

Lemma rstrip_cons (c : ascii) (s : string) :
  Str.rstrip (String c s)
  = if Str.is_empty (Str.rstrip s) && Str.isspace c then EmptyString
    else String c (Str.rstrip s).
Proof. reflexivity. Qed.

Lemma rstrip_fixed (q : string) : last_not_space q -> Str.rstrip q = q.
Proof.
  induction q as [| c q IH]; [reflexivity |].
  destruct q as [| c' q'].
  - simpl. now intros ->.
  - intros H. rewrite rstrip_cons, (IH H). reflexivity.
Qed.

Lemma strip_idem (p : string) : Str.strip (Str.strip p) = Str.strip p.
Proof.
  destruct (strip_spec p) as (l & r & _ & _ & _ & Hf & Hl).
  unfold Str.strip at 1. now rewrite (lstrip_fixed _ Hf), (rstrip_fixed _ Hl).
Qed.

(** X18.  Every path whose listing is asked for passed the directory
    test, and is trimmed: trimming it again changes nothing, so no
    candidate path starts with the whitespace written around an entry. *)
Theorem X18_listed_paths_are_trimmed_directories (fs : filesystem)
  (directory : string) :
  Forall (fun d => isdir fs d = true /\ Str.strip d = d)
    (parse_directories fs directory).
Proof.
  unfold parse_directories. apply Forall_map, Forall_forall.
  intros p Hp. apply filter_In in Hp. destruct Hp as [_ Hd].
  split; [exact Hd | apply strip_idem].
Qed.
